(** * server.js: authentication, catalog, cart and checkout routes

    A shallow embedding of the Express application of [server.js].  Every
    route handler is a function from the request data and the server state
    to an outcome and a new state.  The state gathers the process-local
    [carts] object together with the contents of the three external stores
    the handlers talk to (the Prisma user and order tables and the Mongo
    product collection).

    Conventions of the model:
    - a handler runs as one atomic transition; interleavings of other
      requests at its [await] points are outside the model;
    - JavaScript numbers (quantities, prices, totals) are the integers they
      denote, which double arithmetic adds and multiplies exactly below 2^53;
    - request fields are well typed: product ids, names and roles are
      strings, quantities and prices are numbers; a product id that
      reaches the collection is cast to an ObjectId first, and a string
      that is no ObjectId makes the call throw;
    - the answers of the external services (the clock, keys assigned by
      the stores, whether a write to the relational store commits, the
      bcrypt primitives, the regular expression engine of MongoDB) are
      inputs of the model, and so is the cast of a string to an
      ObjectId; the Mongo collection answers every query whose id casts;
    - a user id is a key of the user table, never the name of a member of
      [Object.prototype], so [carts[id]] is the user's array or
      [undefined]. *)

From stdpp Require Import gmap strings list sorting.
From Stdlib Require Import ZArith Lia Ascii.

Local Open Scope string_scope.
Local Open Scope list_scope.
Local Open Scope Z_scope.

(** ** Data model *)

(** Modelled from the spec: the Prisma [User] table, whose schema is not
    part of [server.js]; the fields are the ones the register route writes
    (line 46) plus the key, and [email] is unique (it is the argument of
    [findUnique]). *)
Record User := mkUser {
  user_id : Z;
  user_name : string;
  email : string;
  passwordHash : string;
  role : string
}.

(** The key of a document of the collection: the 12 bytes of an ObjectId,
    as the number they spell. *)
Abbreviation ObjectId := N.

(** [productSchema] (lines 18-24) with the [_id] Mongo adds. *)
Record Product := mkProduct {
  _id : ObjectId;
  sku : string;
  name : string;
  price : Z;
  category : string;
  updatedAt : Z
}.

(** An element of [carts[userId]]: [{ productId, quantity }]. *)
Record CartItem := mkCartItem {
  productId : string;
  quantity : Z
}.

(** An element of [items] in the checkout route (line 126). *)
Record OrderItem := mkOrderItem {
  item_productId : string;
  item_quantity : Z;
  priceAtPurchase : Z
}.

(** Modelled from the spec: the Prisma [Order] table with its nested items,
    whose schema is not part of [server.js]; the fields are the ones the
    checkout route writes (lines 130-136) plus the key. *)
Record Order := mkOrder {
  order_id : Z;
  order_userId : Z;
  total : Z;
  items : list OrderItem
}.

(** The payload of a session token, [{ id, role }]; after [authenticate]
    it is [req.user]. *)
Record Claims := mkClaims {
  id : Z;
  claim_role : string
}.

#[global] Instance User_eq_dec : EqDecision User.
Proof. solve_decision. Defined.
#[global] Instance Product_eq_dec : EqDecision Product.
Proof. solve_decision. Defined.
#[global] Instance CartItem_eq_dec : EqDecision CartItem.
Proof. solve_decision. Defined.
#[global] Instance OrderItem_eq_dec : EqDecision OrderItem.
Proof. solve_decision. Defined.
#[global] Instance Order_eq_dec : EqDecision Order.
Proof. solve_decision. Defined.
#[global] Instance Claims_eq_dec : EqDecision Claims.
Proof. solve_decision. Defined.

(** The server state: the three stores and the [carts] object (line 94),
    a map from user id to an array of cart items. *)
Record state := mkState {
  users : list User;
  products : list Product;
  orders : list Order;
  carts : gmap Z (list CartItem)
}.

Definition set_users (us : list User) (st : state) : state :=
  mkState us (products st) (orders st) (carts st).
Definition set_products (ps : list Product) (st : state) : state :=
  mkState (users st) ps (orders st) (carts st).
Definition set_orders (os : list Order) (st : state) : state :=
  mkState (users st) (products st) os (carts st).
Definition set_carts (cs : gmap Z (list CartItem)) (st : state) : state :=
  mkState (users st) (products st) (orders st) cs.

(** The state of a freshly started process over empty stores. *)
Definition init : state := mkState [] [] [] ∅.

(** ** Cart routes (lines 93-112) *)

(** [carts[userId] || []]. *)
Definition cartOf (u : Z) (st : state) : list CartItem :=
  default [] (carts st !! u).

(** [item.quantity += quantity] on the object found in the array; the
    sum is the integer sum, which is what the double addition of the
    source computes as long as the operands and the result are integers
    of magnitude at most 2^53. *)
Definition bump (q : Z) (item : CartItem) : CartItem :=
  mkCartItem (productId item) (quantity item + q).

(** The body of [POST /cart] on one array (lines 103-105): [find] returns
    the first item with the product id, which is updated in place;
    otherwise a new item is pushed. *)
Definition addItem (pid : string) (q : Z) (cart : list CartItem) : list CartItem :=
  match list_find (λ i, productId i = pid) cart with
  | Some (k, item) => <[k := bump q item]> cart
  | None => cart ++ [mkCartItem pid q]
  end.

(** [filter(i => i.productId !== productId)] (line 110). *)
Definition removeItem (pid : string) (cart : list CartItem) : list CartItem :=
  filter (λ i, productId i ≠ pid) cart.

(** ** Requests, responses and the environment *)

(** A session token as [jwt.sign] builds it: the payload, the expiry
    ([expiresIn: '1h']) and the secret it was signed with.  A token that
    does not verify is one whose [signedWith] differs from the secret of
    the server. *)
Record Token := mkToken {
  payload : Claims;
  exp : Z;
  signedWith : string
}.

#[global] Instance Token_eq_dec : EqDecision Token.
Proof. solve_decision. Defined.

(** The body of [POST /products]. *)
Record ProductBody := mkProductBody {
  body_sku : string;
  body_name : string;
  body_price : Z;
  body_category : string
}.

(** The body of [PUT /products/:id]: any subset of the schema fields. *)
Record ProductPatch := mkProductPatch {
  patch_sku : option string;
  patch_name : option string;
  patch_price : option Z;
  patch_category : option string;
  patch_updatedAt : option Z
}.

(** The routes of the application with the request data each one reads.
    [auth] is the token taken from the [Authorization] header
    ([split(' ')[1]]), [None] when there is none. *)
Inductive request :=
| Register (name email password : string) (role : option string)
| Login (email password : string)
| GetProducts (search category : option string)
| PostProduct (auth : option Token) (body : ProductBody)
| PutProduct (auth : option Token) (pid : string) (body : ProductPatch)
| DeleteProduct (auth : option Token) (pid : string)
| GetCart (auth : option Token)
| PostCart (auth : option Token) (pid : string) (q : Z)
| DeleteCart (auth : option Token) (pid : string)
| Checkout (auth : option Token).

(** What [res.json] is given. *)
Inductive body :=
| Message (m : string)
| UserBody (u : User)
| LoginBody (token : Token) (u : User)
| ProductsBody (ps : list Product)
| ProductBodyOf (p : option Product)
| CartBody (cart : list CartItem)
| OrderBody (o : Order).

(** Errors of the external stores that reach a handler as a rejected
    promise. *)
Inductive storeError :=
| PersistenceError
| QueryError
| CastError.

(** A handler either answers with a status and a JSON body, or its
    promise is rejected because a store call threw and nothing caught
    it; the handler then sends no response of its own. *)
Inductive outcome :=
| Json (status : nat) (b : body)
| Rejected (e : storeError).

(** What the outside world contributes to one request: the clock (in
    seconds), the answer of the relational store to a write ([Some k]: the
    row is committed under key [k]; [None]: the write is refused), and the
    [_id] Mongo gives to a new document. *)
Record env := mkEnv {
  now : Z;
  prismaWrite : option Z;
  mongoOid : ObjectId
}.

Definition status (o : outcome) : option nat :=
  match o with
  | Json s _ => Some s
  | Rejected _ => None
  end.

(** ** Queries by id and the checkout loop *)

Section Mongoose.

(** The cast Mongoose applies to the id of a query by id: the ObjectId
    the string spells, or [None] when it spells none, in which case the
    query throws [CastError]. *)
Variable castObjectId : string → option ObjectId.

(** A product id that casts. *)
Definition well_formed (pid : string) : Prop := is_Some (castObjectId pid).

(** The document of the collection with a given key, if any. *)
Definition findOne (oid : ObjectId) (ps : list Product) : option Product :=
  snd <$> list_find (λ p, _id p = oid) ps.

(** [Product.findById(id)]: throws when the id does not cast; otherwise
    the document with that [_id], or [null]. *)
Definition findById (pid : string) (ps : list Product) : storeError + option Product :=
  match castObjectId pid with
  | None => inl CastError
  | Some oid => inr (findOne oid ps)
  end.

(** The [for (const item of cart)] loop (lines 119-127), with its two
    accumulators [total] and [items]; a lookup that throws ends it. *)
Fixpoint resolve (ps : list Product) (cart : list CartItem)
    (total : Z) (items : list OrderItem) : storeError + Z * list OrderItem :=
  match cart with
  | [] => inr (total, items)
  | item :: rest =>
      match findById (productId item) ps with
      | inl err => inl err
      | inr None => resolve ps rest total items
      | inr (Some product) =>
          let priceAtPurchase := price product in
          resolve ps rest (total + priceAtPurchase * quantity item)
            (items ++ [mkOrderItem (productId item) (quantity item) priceAtPurchase])
      end
  end.

(** The partial merge [findByIdAndUpdate] applies to the document. *)
Definition merge (b : ProductPatch) (p : Product) : Product :=
  mkProduct (_id p)
    (default (sku p) (patch_sku b))
    (default (name p) (patch_name b))
    (default (price p) (patch_price b))
    (default (category p) (patch_category b))
    (default (updatedAt p) (patch_updatedAt b)).

(** The update of the document with a given key, with [{ new: true }]:
    the updated document, or [null] when no document has the key,
    together with the collection it leaves. *)
Definition findOneAndUpdate (oid : ObjectId) (b : ProductPatch)
    (ps : list Product) : option Product * list Product :=
  match list_find (λ p, _id p = oid) ps with
  | Some (k, p) => (Some (merge b p), <[k := merge b p]> ps)
  | None => (None, ps)
  end.

(** [Product.findByIdAndUpdate(id, body, { new: true })]: throws when the
    id does not cast; otherwise updates the document with that [_id]. *)
Definition findByIdAndUpdate (pid : string) (b : ProductPatch)
    (ps : list Product) : storeError + option Product * list Product :=
  match castObjectId pid with
  | None => inl CastError
  | Some oid => inr (findOneAndUpdate oid b ps)
  end.

(** The collection without the document of a given key. *)
Definition findOneAndDelete (oid : ObjectId) (ps : list Product) : list Product :=
  match list_find (λ p, _id p = oid) ps with
  | Some (k, _) => delete k ps
  | None => ps
  end.

(** [Product.findByIdAndDelete(id)]: throws when the id does not cast;
    otherwise deletes the document with that [_id]. *)
Definition findByIdAndDelete (pid : string) (ps : list Product)
    : storeError + list Product :=
  match castObjectId pid with
  | None => inl CastError
  | Some oid => inr (findOneAndDelete oid ps)
  end.

End Mongoose.

(** ** The route handlers *)

Section Handlers.

(** [JWT_SECRET] (line 10), the two bcrypt primitives, the engine behind
    [{ $regex: search, $options: 'i' }] (it compiles a pattern to a
    case-insensitive, unanchored test on strings, or refuses the
    pattern), and the cast of an id string to an ObjectId. *)
Variable JWT_SECRET : string.
Variable bcrypt_hash : string → string.
Variable bcrypt_compare : string → string → bool.
Variable mongo_regex_i : string → option (string → bool).
Variable castObjectId : string → option ObjectId.

(** [jwt.sign(payload, JWT_SECRET, { expiresIn: '1h' })] at time [iat]. *)
Definition jwt_sign (c : Claims) (iat : Z) : Token :=
  mkToken c (iat + 3600) JWT_SECRET.

(** [jwt.verify(token, JWT_SECRET)] at time [clock]; [None] when it
    throws. *)
Definition jwt_verify (t : Token) (clock : Z) : option Claims :=
  if decide (signedWith t = JWT_SECRET ∧ clock < exp t)
  then Some (payload t) else None.

(** The [authenticate] middleware (lines 28-38); [next] is the route
    handler, which receives [req.user]. *)
Definition authenticate (e : env) (auth : option Token)
    (next : Claims → state → outcome * state) (st : state) : outcome * state :=
  match auth with
  | None => (Json 401 (Message "No token"), st)
  | Some token =>
      match jwt_verify token (now e) with
      | Some decoded => next decoded st
      | None => (Json 401 (Message "Invalid token"), st)
      end
  end.

(** *** Auth routes (lines 41-62) *)

(** [role || 'customer']: the empty string is falsy. *)
Definition role_or_customer (r : option string) : string :=
  match r with
  | Some s => if decide (s = "") then "customer" else s
  | None => "customer"
  end.

(** [prisma.user.create]: refused when the store refuses the write or
    the email is taken. *)
Definition user_create (e : env) (nm em hash rl : string)
    (us : list User) : option User :=
  match prismaWrite e with
  | Some k =>
      if decide (em ∈ email <$> us) then None
      else Some (mkUser k nm em hash rl)
  | None => None
  end.

Definition auth_register (e : env) (nm em password : string)
    (r : option string) (st : state) : outcome * state :=
  let hash := bcrypt_hash password in
  match user_create e nm em hash (role_or_customer r) (users st) with
  | Some user => (Json 200 (UserBody user), set_users (users st ++ [user]) st)
  | None => (Json 400 (Message "User exists"), st)
  end.

(** [prisma.user.findUnique({ where: { email } })]. *)
Definition findUnique (em : string) (us : list User) : option User :=
  snd <$> list_find (λ u, email u = em) us.

Definition auth_login (e : env) (em password : string)
    (st : state) : outcome * state :=
  match findUnique em (users st) with
  | None => (Json 401 (Message "Invalid credentials"), st)
  | Some user =>
      if bcrypt_compare password (passwordHash user) then
        let token := jwt_sign (mkClaims (user_id user) (role user)) (now e) in
        (Json 200 (LoginBody token user), st)
      else (Json 401 (Message "Invalid credentials"), st)
  end.

(** *** Product routes (lines 65-91) *)

(** [if (search)], [if (category)]: a query-string field constrains the
    query when it is present and not the empty string. *)
Definition truthy (s : option string) : option string :=
  match s with
  | Some x => if decide (x = "") then None else Some x
  | None => None
  end.

(** One condition of the query object on one document. *)
Definition name_matches (m : option (string → bool)) (p : Product) : Prop :=
  match m with
  | Some test => test (name p) = true
  | None => True
  end.

Definition category_matches (c : option string) (p : Product) : Prop :=
  match c with
  | Some x => category p = x
  | None => True
  end.

#[global] Instance name_matches_dec m p : Decision (name_matches m p).
Proof. destruct m; simpl; apply _. Defined.
#[global] Instance category_matches_dec c p : Decision (category_matches c p).
Proof. destruct c; simpl; apply _. Defined.

(** [.sort({ price: -1 })]. *)
Definition price_desc (a b : Product) : Prop := price b ≤ price a.

#[global] Instance price_desc_dec a b : Decision (price_desc a b).
Proof. unfold price_desc; apply _. Defined.

Definition sort_price_desc (ps : list Product) : list Product :=
  merge_sort price_desc ps.

(** [Product.find(query)]: [None] when the store rejects the pattern. *)
Definition find (search category : option string)
    (ps : list Product) : option (list Product) :=
  match search with
  | Some pattern =>
      match mongo_regex_i pattern with
      | Some test =>
          Some (filter (λ p, name_matches (Some test) p ∧ category_matches category p) ps)
      | None => None
      end
  | None =>
      Some (filter (λ p, name_matches None p ∧ category_matches category p) ps)
  end.

Definition get_products (search category : option string)
    (st : state) : outcome * state :=
  match find (truthy search) (truthy category) (products st) with
  | Some found => (Json 200 (ProductsBody (sort_price_desc found)), st)
  | None => (Rejected QueryError, st)
  end.

(** [if (req.user.role !== 'admin') return res.status(403)...], the
    first line of the three admin routes. *)
Definition admin_only (user : Claims)
    (next : state → outcome * state) (st : state) : outcome * state :=
  if decide (claim_role user ≠ "admin")
  then (Json 403 (Message "Admin only"), st)
  else next st.

Definition post_products (e : env) (b : ProductBody)
    (user : Claims) (st : state) : outcome * state :=
  admin_only user (λ st,
    let product :=
      mkProduct (mongoOid e) (body_sku b) (body_name b) (body_price b)
        (body_category b) (now e) in
    (Json 200 (ProductBodyOf (Some product)),
     set_products (products st ++ [product]) st)) st.

Definition put_products (pid : string) (b : ProductPatch)
    (user : Claims) (st : state) : outcome * state :=
  admin_only user (λ st,
    match findByIdAndUpdate castObjectId pid b (products st) with
    | inl err => (Rejected err, st)
    | inr (product, ps) => (Json 200 (ProductBodyOf product), set_products ps st)
    end) st.

Definition delete_products (pid : string)
    (user : Claims) (st : state) : outcome * state :=
  admin_only user (λ st,
    match findByIdAndDelete castObjectId pid (products st) with
    | inl err => (Rejected err, st)
    | inr ps => (Json 200 (Message "Deleted"), set_products ps st)
    end) st.

(** *** Cart routes (lines 96-112) *)

Definition get_cart (user : Claims) (st : state) : outcome * state :=
  (Json 200 (CartBody (cartOf (id user) st)), st).

(** [if (!carts[req.user.id]) carts[req.user.id] = []]. *)
Definition ensure_cart (u : Z) (cs : gmap Z (list CartItem)) : gmap Z (list CartItem) :=
  match cs !! u with
  | Some _ => cs
  | None => <[u := []]> cs
  end.

Definition post_cart (pid : string) (q : Z)
    (user : Claims) (st : state) : outcome * state :=
  let cs := ensure_cart (id user) (carts st) in
  let cart := addItem pid q (default [] (cs !! id user)) in
  (Json 200 (CartBody cart), set_carts (<[id user := cart]> cs) st).

(** [carts[u] = carts[u]?.filter(...) || []]. *)
Definition delete_cart (pid : string)
    (user : Claims) (st : state) : outcome * state :=
  let cart :=
    match carts st !! id user with
    | Some c => removeItem pid c
    | None => []
    end in
  (Json 200 (CartBody cart), set_carts (<[id user := cart]> (carts st)) st).

(** *** Checkout (lines 115-141) *)

Definition post_checkout (e : env) (user : Claims) (st : state) : outcome * state :=
  let cart := cartOf (id user) st in
  if decide (length cart = 0%nat)
  then (Json 400 (Message "Empty cart"), st)
  else
    match resolve castObjectId (products st) cart 0 [] with
    | inl err => (Rejected err, st)
    | inr (total, items) =>
        match prismaWrite e with
        | None => (Rejected PersistenceError, st)
        | Some k =>
            let order := mkOrder k (id user) total items in
            (Json 200 (OrderBody order),
             set_carts (<[id user := []]> (carts st))
               (set_orders (orders st ++ [order]) st))
        end
    end.

(** *** The application *)

Definition app (e : env) (r : request) (st : state) : outcome * state :=
  match r with
  | Register nm em password rl => auth_register e nm em password rl st
  | Login em password => auth_login e em password st
  | GetProducts search cat => get_products search cat st
  | PostProduct auth b => authenticate e auth (post_products e b) st
  | PutProduct auth pid b => authenticate e auth (put_products pid b) st
  | DeleteProduct auth pid => authenticate e auth (delete_products pid) st
  | GetCart auth => authenticate e auth get_cart st
  | PostCart auth pid q => authenticate e auth (post_cart pid q) st
  | DeleteCart auth pid => authenticate e auth (delete_cart pid) st
  | Checkout auth => authenticate e auth (post_checkout e) st
  end.

(** The state after a sequence of requests, served one after the other. *)
Definition serve (rs : list (env * request)) (st : state) : state :=
  foldl (λ st er, snd (app er.1 er.2 st)) st rs.

End Handlers.

(** ** Vocabulary of the specification *)

(** Sum of a list of numbers. *)
Definition Zsum (l : list Z) : Z := foldr Z.add 0 l.

(** The two mutations of one user's cart. *)
Inductive cartOp :=
| Add (pid : string) (q : Z)
| Remove (pid : string).

#[global] Instance cartOp_eq_dec : EqDecision cartOp.
Proof. solve_decision. Defined.

(** The operations that follow the last removal of [pid] (all of them when
    [pid] was never removed). *)
Definition since_last_removal (pid : string) (ops : list cartOp) : list cartOp :=
  foldl (λ acc o, if decide (o = Remove pid) then [] else acc ++ [o]) [] ops.

(** The quantities of the adds of [pid] among [ops], in order. *)
Definition adds_of (pid : string) (ops : list cartOp) : list Z :=
  omap (λ o, match o with
             | Add p q => if decide (p = pid) then Some q else None
             | Remove _ => None
             end) ops.

Definition added_since_removal (pid : string) (ops : list cartOp) : list Z :=
  adds_of pid (since_last_removal pid ops).

(** One cart operation of an authenticated user, and a sequence of them. *)
Definition cart_step (user : Claims) (st : state) (o : cartOp) : state :=
  match o with
  | Add pid q => snd (post_cart pid q user st)
  | Remove pid => snd (delete_cart pid user st)
  end.

Definition cart_run (user : Claims) (ops : list cartOp) (st : state) : state :=
  foldl (cart_step user) st ops.

(** [sum(item.quantity * item.priceAtPurchase for item in order.items)]. *)
Definition items_total (its : list OrderItem) : Z :=
  Zsum ((λ it, item_quantity it * priceAtPurchase it) <$> its).

(** A cart entry is resolvable when the lookup of its product id answers
    with a product. *)
Definition resolvable (cast : string → option ObjectId)
    (ps : list Product) (item : CartItem) : Prop :=
  match findById cast (productId item) ps with
  | inr (Some _) => True
  | _ => False
  end.

#[global] Instance resolvable_dec cast ps item : Decision (resolvable cast ps item).
Proof.
  unfold resolvable. destruct (findById cast (productId item) ps) as [?|[?|]]; apply _.
Defined.

(** The order item the specification records for a cart entry: its
    quantity at the price the catalog shows, when the product is found. *)
Definition priced (cast : string → option ObjectId)
    (ps : list Product) (item : CartItem) : option OrderItem :=
  match findById cast (productId item) ps with
  | inr (Some p) => Some (mkOrderItem (productId item) (quantity item) (price p))
  | _ => None
  end.

Definition priced_items (cast : string → option ObjectId)
    (ps : list Product) (cart : list CartItem) : list OrderItem :=
  omap (priced cast ps) cart.

(** Every product id of the cart casts. *)
Definition ids_cast (cast : string → option ObjectId) (cart : list CartItem) : Prop :=
  Forall (λ item, well_formed cast (productId item)) cart.

#[global] Instance ids_cast_dec cast cart : Decision (ids_cast cast cart).
Proof. unfold ids_cast, well_formed. apply _. Defined.

(** The integers a double holds exactly: on them [+] and [+=] give the
    integer sum whenever that sum is in the range too. *)
Definition safe (n : Z) : Prop := - 2 ^ 53 ≤ n ≤ 2 ^ 53.

(** An outcome that is an error for the client: a 4xx or 5xx status, or a
    rejected handler. *)
Definition is_error (o : outcome) : Prop :=
  match o with
  | Json s _ => (400 ≤ s)%nat
  | Rejected _ => True
  end.

(** An answer that is past the gates: neither 401 nor 403. *)
Definition passes_gate (o : outcome) : Prop :=
  status o ≠ Some 401%nat ∧ status o ≠ Some 403%nat.

(** A request of the cart adds a positive quantity (any other request
    qualifies). *)
Definition adds_positive (r : request) : Prop :=
  match r with
  | PostCart _ _ q => 0 < q
  | _ => True
  end.

(** Every entry of every cart has a positive quantity. *)
Definition quantities_positive (st : state) : Prop :=
  ∀ u item, item ∈ cartOf u st → 0 < quantity item.

(** *** Substring search, as the specification words the catalog filter *)

Definition lower (c : ascii) : ascii :=
  let n := nat_of_ascii c in
  if decide (65 ≤ n ≤ 90)%nat then ascii_of_nat (n + 32) else c.

Fixpoint lower_string (s : string) : string :=
  match s with
  | EmptyString => EmptyString
  | String c r => String (lower c) (lower_string r)
  end.

Fixpoint starts_with (p s : string) : bool :=
  match p, s with
  | EmptyString, _ => true
  | String a p', String b s' => bool_decide (a = b) && starts_with p' s'
  | String _ _, EmptyString => false
  end.

Fixpoint contains (p s : string) : bool :=
  starts_with p s ||
  match s with
  | String _ s' => contains p s'
  | EmptyString => false
  end.

(** [needle] occurs in [hay] up to the case of ASCII letters. *)
Definition contains_ci (needle hay : string) : bool :=
  contains (lower_string needle) (lower_string hay).

(** The characters with a special meaning in regular expressions, and the
    strings free of them. *)
Definition specials : list ascii :=
  String.list_ascii_of_string ".^$*+?()[]{}|\".

Definition special (c : ascii) : bool := bool_decide (c ∈ specials).

Fixpoint plain (s : string) : bool :=
  match s with
  | EmptyString => true
  | String c r => negb (special c) && plain r
  end.

(** The filter of the specification: substring on the name when a search
    string is supplied, equality on the category when one is supplied. *)
Definition listed_by_spec (search cat : option string) (p : Product) : Prop :=
  (∀ s, search = Some s → contains_ci s (name p) = true) ∧
  (∀ c, cat = Some c → category p = c).

(** *** Routes, credentials and whole-state properties *)

(** The token a request presents: [None] on the three public routes,
    [Some auth] on the routes behind [authenticate]. *)
Definition credentials (r : request) : option (option Token) :=
  match r with
  | Register _ _ _ _ | Login _ _ | GetProducts _ _ => None
  | PostProduct auth _ | PutProduct auth _ _ | DeleteProduct auth _
  | GetCart auth | PostCart auth _ _ | DeleteCart auth _ | Checkout auth =>
      Some auth
  end.

(** The three routes that write to the product collection. *)
Definition mutates_products (r : request) : Prop :=
  match r with
  | PostProduct _ _ | PutProduct _ _ _ | DeleteProduct _ _ => True
  | _ => False
  end.

(** No cart holds two entries with the same product id. *)
Definition carts_keyed (st : state) : Prop :=
  ∀ u, NoDup (productId <$> cartOf u st).

(** The number of units in a cart. *)
Definition units (cart : list CartItem) : Z := Zsum (quantity <$> cart).

(** A cart entry and an order item as (product id, quantity) pairs. *)
Definition entry_pair (item : CartItem) : string * Z :=
  (productId item, quantity item).

Definition item_pair (it : OrderItem) : string * Z :=
  (item_productId it, item_quantity it).

(** ** Instances of the external primitives, for concrete runs *)

(** A fragment of the pattern language of MongoDB's [$regex] with option
    [i]: literal characters, [.] (any character but a newline) and a
    backslash before a punctuation character.  A pattern using any other
    construct is outside the fragment and gets no matcher here. *)
Module Pcre.

Inductive atom :=
| Lit (c : ascii)
| AnyChar.

Fixpoint parse (s : string) : option (list atom) :=
  match s with
  | EmptyString => Some []
  | String c rest =>
      if decide (c = "."%char) then cons AnyChar <$> parse rest
      else if decide (c = "\"%char) then
        match rest with
        | String d rest' =>
            if special d then cons (Lit d) <$> parse rest' else None
        | EmptyString => None
        end
      else if special c then None
      else cons (Lit c) <$> parse rest
  end.

Definition newline : ascii := ascii_of_nat 10.

Definition atom_accepts (a : atom) (c : ascii) : bool :=
  match a with
  | Lit d => bool_decide (lower d = lower c)
  | AnyChar => negb (bool_decide (c = newline))
  end.

Fixpoint match_here (atoms : list atom) (s : string) : bool :=
  match atoms, s with
  | [], _ => true
  | a :: atoms', String c s' => atom_accepts a c && match_here atoms' s'
  | _ :: _, EmptyString => false
  end.

Fixpoint match_anywhere (atoms : list atom) (s : string) : bool :=
  match_here atoms s ||
  match s with
  | String _ s' => match_anywhere atoms s'
  | EmptyString => false
  end.

Definition regex_i (pattern : string) : option (string → bool) :=
  match_anywhere <$> parse pattern.

End Pcre.

(** The cast of the 24 hexadecimal digits of an ObjectId, in either case,
    to the number they spell; any other string does not cast. *)
Module Hex24.

Definition digit (c : ascii) : option N :=
  let n := N_of_ascii c in
  if decide (48 ≤ n ≤ 57)%N then Some (n - 48)%N
  else if decide (97 ≤ n ≤ 102)%N then Some (n - 87)%N
  else if decide (65 ≤ n ≤ 70)%N then Some (n - 55)%N
  else None.

Fixpoint value (s : string) (acc : N) : option N :=
  match s with
  | EmptyString => Some acc
  | String c r =>
      match digit c with
      | Some d => value r (16 * acc + d)%N
      | None => None
      end
  end.

Definition cast (s : string) : option ObjectId :=
  if decide (String.length s = 24%nat) then value s 0%N else None.

End Hex24.

(** A stand-in for bcrypt that satisfies its contract ([compare] accepts
    the hash of the same password): the hash is the password behind a
    marker. *)
Module Plain.
Definition hash (password : string) : string := "$2b$10$" +:+ password.
Definition compare (password h : string) : bool :=
  bool_decide (h = hash password).
End Plain.

(** Concrete users, catalogs and states: the scenarios of the
    specification and a few more. *)
Module Sample.

Definition alice : Claims := mkClaims 1 "customer".
Definition root : Claims := mkClaims 2 "admin".

(** Four product ids as requests spell them, and the key behind such a
    spelling; [id1] and [id2] are in the catalogs below, [id3] and [id4]
    are in none, [id9] is the one the store gives out next. *)
Definition id1 : string := "64b7f0a21c9d4e0012ab0001".
Definition id2 : string := "64b7f0a21c9d4e0012ab0002".
Definition id3 : string := "64b7f0a21c9d4e0012ab0003".
Definition id4 : string := "64b7f0a21c9d4e0012ab0004".
Definition id9 : string := "64b7f0a21c9d4e0012ab0009".
Definition oid (s : string) : ObjectId := default 0%N (Hex24.cast s).

Definition p1 (pr : Z) : Product := mkProduct (oid id1) "SKU-1" "Teapot" pr "kitchen" 0.
Definition p2 : Product := mkProduct (oid id2) "SKU-2" "abc" 7 "toys" 0.

(** Cart [[{id1, 2}]], the product priced 10. *)
Definition one_item : state :=
  mkState [] [p1 10] [] {[ 1 := [mkCartItem id1 2] ]}.

(** Cart [[{id1, 1}, {missing, 3}]], only the first in the catalog,
    priced 5; the second id is no ObjectId. *)
Definition one_missing : state :=
  mkState [] [p1 5] [] {[ 1 := [mkCartItem id1 1; mkCartItem "missing" 3] ]}.

(** Cart [[{id1, 1}, {id3, 3}]], only the first in the catalog, priced 5. *)
Definition one_unknown : state :=
  mkState [] [p1 5] [] {[ 1 := [mkCartItem id1 1; mkCartItem id3 3] ]}.

(** A cart none of whose products is in the catalog. *)
Definition all_unknown : state :=
  mkState [] [p1 5] [] {[ 1 := [mkCartItem id3 1; mkCartItem id4 3] ]}.

(** Cart [[{p1, 2}]] with the id spelled [p1], which is no ObjectId. *)
Definition short_id : state :=
  mkState [] [p1 10] [] {[ 1 := [mkCartItem "p1" 2] ]}.

(** A catalog of two products and no carts. *)
Definition shop : state := mkState [] [p1 5; p2] [] ∅.

(** The secret of the server and the token [jwt.sign] issues for a
    payload at time 0. *)
Definition secret : string := "secret".
Definition token_of (c : Claims) : Token := jwt_sign secret c 0.

(** The store commits under key 7; the store refuses. *)
Definition commits : env := mkEnv 1000 (Some 7) (oid id9).
Definition refuses : env := mkEnv 1000 None (oid id9).

End Sample.

(** * Properties *)

(** ** Arrays of cart items *)

Section CartArrays.

Implicit Types (cart : list CartItem) (item : CartItem) (pid : string) (q : Z).

Lemma addItem_nil pid q : addItem pid q [] = [mkCartItem pid q].
Proof. reflexivity. Qed.

Lemma addItem_cons pid q item cart :
  addItem pid q (item :: cart) =
    if decide (productId item = pid) then bump q item :: cart
    else item :: addItem pid q cart.
Proof.
  unfold addItem; cbn [list_find].
  destruct (decide (productId item = pid)) as [Heq|Hne]; [done|].
  by destruct (list_find _ cart) as [[k x]|].
Qed.

(** The product ids of the array after an add: unchanged when the id is
    already there, extended at the end otherwise. *)
Lemma addItem_keys pid q cart :
  productId <$> addItem pid q cart =
    if decide (pid ∈ productId <$> cart) then productId <$> cart
    else (productId <$> cart) ++ [pid].
Proof.
  induction cart as [|item cart IH]; [done|].
  rewrite addItem_cons.
  destruct (decide (productId item = pid)) as [Heq|Hne].
  - rewrite decide_True by (rewrite fmap_cons, Heq; left). done.
  - rewrite !fmap_cons, IH.
    destruct (decide (pid ∈ productId <$> cart)) as [Hin|Hnin].
    + rewrite decide_True by (by right). done.
    + rewrite decide_False; [done|].
      rewrite elem_of_cons. intros [Hp|Hp]; [by apply Hne|by apply Hnin].
Qed.

Lemma addItem_NoDup pid q cart :
  NoDup (productId <$> cart) → NoDup (productId <$> addItem pid q cart).
Proof.
  intros Hnd. rewrite addItem_keys. case_decide; [done|].
  apply NoDup_app. split_and!; [done| |apply NoDup_singleton].
  intros p Hp Hp'%list_elem_of_singleton. congruence.
Qed.

(** The items of the array after an add, when ids are not repeated. *)
Lemma addItem_elem_of pid q cart item :
  NoDup (productId <$> cart) →
  item ∈ addItem pid q cart ↔
    ((productId item ≠ pid ∧ item ∈ cart) ∨
     (∃ old, old ∈ cart ∧ productId old = pid ∧ item = bump q old) ∨
     ((pid ∉ productId <$> cart) ∧ item = mkCartItem pid q)).
Proof.
  induction cart as [|hd cart IH]; intros Hnd.
  - rewrite addItem_nil, list_elem_of_singleton. split.
    + intros ->. right; right. split; [|done]. cbn. apply not_elem_of_nil.
    + intros [[_ H]|[(old & H & _)|[_ ->]]]; [| |done];
        by apply elem_of_nil in H.
  - rewrite fmap_cons in Hnd. apply NoDup_cons in Hnd as [Hhd Hnd].
    rewrite addItem_cons.
    destruct (decide (productId hd = pid)) as [Heq|Hne].
    + subst pid. rewrite !elem_of_cons. split.
      * intros [->|Hin].
        -- right; left. exists hd. rewrite elem_of_cons. split; [by left|done].
        -- left. split; [|by right].
           intros Hp. apply Hhd. rewrite <- Hp. by apply list_elem_of_fmap_2.
      * intros [[Hp [->|Hin]]|[(old & Hold & Hp & ->)|[Hp _]]].
        -- done.
        -- by right.
        -- apply elem_of_cons in Hold as [->|Hold]; [by left|].
           exfalso. apply Hhd. rewrite <- Hp. by apply list_elem_of_fmap_2.
        -- exfalso. apply Hp. rewrite fmap_cons. left.
    + rewrite elem_of_cons, (IH Hnd), fmap_cons. split.
      * intros [->|[[Hp Hin]|[(old & Hold & Hp & ->)|[Hp ->]]]].
        -- left. split; [done|left].
        -- left. split; [done|by right].
        -- right; left. exists old. split; [by right|done].
        -- right; right. split; [|done].
           rewrite elem_of_cons. intros [Hq|Hq]; [by apply Hne|by apply Hp].
      * intros [[Hp Hin]|[(old & Hold & Hp & ->)|[Hp ->]]].
        -- apply elem_of_cons in Hin as [->|Hin]; [by left|].
           right; left. done.
        -- apply elem_of_cons in Hold as [->|Hold]; [done|].
           right; right; left. by exists old.
        -- right; right; right. split; [|done].
           intros Hin. apply Hp. by right.
Qed.

Lemma removeItem_elem_of pid cart item :
  item ∈ removeItem pid cart ↔ productId item ≠ pid ∧ item ∈ cart.
Proof. unfold removeItem. by rewrite list_elem_of_filter. Qed.

Lemma removeItem_NoDup pid cart :
  NoDup (productId <$> cart) → NoDup (productId <$> removeItem pid cart).
Proof.
  intros Hnd. eapply sublist_NoDup; [exact Hnd|].
  apply fmap_sublist, sublist_filter.
Qed.

End CartArrays.

(** ** The cart routes on the state *)

Section CartRoutes.

Implicit Types (user : Claims) (st : state) (pid : string) (q : Z).

Lemma cartOf_post_cart pid q user st :
  cartOf (id user) (snd (post_cart pid q user st)) =
    addItem pid q (cartOf (id user) st).
Proof.
  unfold post_cart, cartOf, ensure_cart; cbn.
  rewrite lookup_insert_eq; cbn.
  destruct (carts st !! id user) as [c|] eqn:E.
  - by rewrite E.
  - by rewrite lookup_insert_eq.
Qed.

Lemma cartOf_post_cart_ne pid q user st u :
  u ≠ id user → cartOf u (snd (post_cart pid q user st)) = cartOf u st.
Proof.
  intros Hne. unfold post_cart, cartOf, ensure_cart; cbn.
  rewrite lookup_insert_ne by done.
  destruct (carts st !! id user); [done|].
  by rewrite lookup_insert_ne.
Qed.

Lemma cartOf_delete_cart pid user st :
  cartOf (id user) (snd (delete_cart pid user st)) =
    removeItem pid (cartOf (id user) st).
Proof.
  unfold delete_cart, cartOf; cbn. rewrite lookup_insert_eq; cbn.
  by destruct (carts st !! id user).
Qed.

Lemma cartOf_delete_cart_ne pid user st u :
  u ≠ id user → cartOf u (snd (delete_cart pid user st)) = cartOf u st.
Proof.
  intros Hne. unfold delete_cart, cartOf; cbn.
  by rewrite lookup_insert_ne.
Qed.

Lemma cart_run_snoc user ops o st :
  cart_run user (ops ++ [o]) st = cart_step user (cart_run user ops st) o.
Proof. unfold cart_run. by rewrite foldl_snoc. Qed.

End CartRoutes.

(** ** The specification's account of a cart *)

Section AddsSinceRemoval.

Implicit Types (pid p : string) (q : Z) (ops : list cartOp).

Lemma Zsum_snoc l x : Zsum (l ++ [x]) = Zsum l + x.
Proof. unfold Zsum. induction l as [|y l IH]; cbn; [lia|]. rewrite IH. lia. Qed.

Lemma since_last_removal_snoc p ops o :
  since_last_removal p (ops ++ [o]) =
    if decide (o = Remove p) then [] else since_last_removal p ops ++ [o].
Proof. unfold since_last_removal. by rewrite foldl_snoc. Qed.

Lemma added_since_removal_add p ops pid q :
  added_since_removal p (ops ++ [Add pid q]) =
    if decide (pid = p) then added_since_removal p ops ++ [q]
    else added_since_removal p ops.
Proof.
  unfold added_since_removal. rewrite since_last_removal_snoc.
  rewrite decide_False by done.
  unfold adds_of. rewrite omap_app. cbn.
  destruct (decide (pid = p)); [done|]. by rewrite app_nil_r.
Qed.

Lemma added_since_removal_remove p ops pid :
  added_since_removal p (ops ++ [Remove pid]) =
    if decide (pid = p) then [] else added_since_removal p ops.
Proof.
  unfold added_since_removal. rewrite since_last_removal_snoc.
  destruct (decide (pid = p)) as [->|Hne].
  - by rewrite decide_True.
  - rewrite decide_False by congruence.
    unfold adds_of. rewrite omap_app. cbn. by rewrite app_nil_r.
Qed.

End AddsSinceRemoval.

(** ** Carts after a sequence of adds and removes *)

Section CartInvariant.

Implicit Types (user : Claims) (st : state) (ops : list cartOp).

(** The array of the user holds exactly the items the specification
    predicts: one per product id added since its last removal, with the
    sum of those adds as quantity. *)
Lemma cart_run_items user ops st :
  cartOf (id user) st = [] →
  NoDup (productId <$> cartOf (id user) (cart_run user ops st)) ∧
  ∀ item, item ∈ cartOf (id user) (cart_run user ops st) ↔
    added_since_removal (productId item) ops ≠ [] ∧
    quantity item = Zsum (added_since_removal (productId item) ops).
Proof.
  intros Hempty. induction ops as [|o ops [Hnd IH]] using rev_ind.
  - cbn. rewrite Hempty. split; [constructor|].
    intros item. split; [by intros ?%elem_of_nil|by intros [? _]].
  - rewrite cart_run_snoc.
    set (st' := cart_run user ops st) in *.
    destruct o as [pid q|pid]; cbn [cart_step].
    + rewrite cartOf_post_cart. split; [by apply addItem_NoDup|].
      intros item. rewrite addItem_elem_of by done.
      rewrite added_since_removal_add.
      destruct (decide (pid = productId item)) as [Heq|Hne].
      * set (added := added_since_removal (productId item) ops) in *.
        rewrite Zsum_snoc. split.
        -- intros [[Hp _]|[(old & Hold & Hp & ->)|[Hp ->]]].
           ++ by destruct Hp.
           ++ apply IH in Hold as [_ Hq]. split; [by destruct added|].
              cbn in *. rewrite Hq. done.
           ++ split; [by destruct added|]. cbn in *.
              destruct (decide (added = [])) as [->|Hadd]; [done|].
              destruct Hp.
              apply (list_elem_of_fmap_2' _ _ (mkCartItem pid (Zsum added))); [|done].
              apply IH. done.
        -- intros [_ Hq]. right.
           destruct (decide (added = [])) as [Hadd|Hadd].
           ++ right. split.
              ** intros (old & Hp & Hold)%list_elem_of_fmap.
                 apply IH in Hold as [Hne _]. apply Hne.
                 rewrite <- Hp, Heq. done.
              ** rewrite Hadd in Hq. destruct item; cbn in *. by subst.
           ++ left. exists (mkCartItem (productId item) (Zsum added)).
              split; [by apply IH|]. split; [done|].
              destruct item; unfold bump; cbn in *. by subst.
      * rewrite <- IH. split.
        -- intros [[_ Hin]|[(old & _ & Hp & ->)|[_ ->]]]; [done|by destruct Hne..].
        -- intros Hin. left. split; [done|done].
    + rewrite cartOf_delete_cart. split; [by apply removeItem_NoDup|].
      intros item. rewrite removeItem_elem_of, added_since_removal_remove.
      destruct (decide (pid = productId item)) as [Heq|Hne].
      * split; [by intros [Hp _]|by intros [Hp _]].
      * rewrite <- IH. split; [by intros [_ ?]|done].
Qed.

(** C3. Starting from an empty cart, after any sequence of adds and
    removes by one user the array has at most one entry per product id;
    the quantity of each entry is the sum of the quantities added for its
    product id since that id was last removed; and the ids present are
    exactly those added since their last removal. *)
Theorem cart_one_entry_per_product_with_summed_quantity user ops st :
  cartOf (id user) st = [] →
  let cart := cartOf (id user) (cart_run user ops st) in
  NoDup (productId <$> cart) ∧
  (∀ item, item ∈ cart →
     quantity item = Zsum (added_since_removal (productId item) ops)) ∧
  (∀ pid, pid ∈ productId <$> cart ↔ added_since_removal pid ops ≠ []).
Proof.
  intros Hempty cart.
  destruct (cart_run_items user ops st Hempty) as [Hnd Hitems].
  split_and!; [done| |].
  - intros item Hin. by apply Hitems in Hin as [_ ?].
  - intros pid. rewrite list_elem_of_fmap. split.
    + intros (item & -> & Hin). by apply Hitems in Hin as [? _].
    + intros Hadd.
      exists (mkCartItem pid (Zsum (added_since_removal pid ops))).
      split; [done|]. by apply Hitems.
Qed.

End CartInvariant.

Lemma cart_one_entry_per_product_with_summed_quantity_witness :
  let ops := [Add "p1" 1; Add "p2" 3; Remove "p1"; Add "p1" 2; Add "p1" 7] in
  let cart := cartOf 1 (cart_run Sample.alice ops init) in
  cartOf 1 init = [] ∧
  NoDup (productId <$> cart) ∧
  (∀ item, item ∈ cart →
     quantity item = Zsum (added_since_removal (productId item) ops)).
Proof.
  intros ops cart.
  assert (H : cartOf (id Sample.alice) init = []) by reflexivity.
  split; [exact H|].
  destruct (cart_one_entry_per_product_with_summed_quantity Sample.alice ops init H)
    as (Hnd & Hq & _).
  split; [exact Hnd|exact Hq].
Defined.

(** ** Checkout *)

Section Checkout.

Variable castObjectId : string → option ObjectId.

Implicit Types (e : env) (user : Claims) (st : state)
  (ps : list Product) (cart : list CartItem) (its : list OrderItem).

Lemma items_total_app its1 its2 :
  items_total (its1 ++ its2) = items_total its1 + items_total its2.
Proof.
  unfold items_total, Zsum.
  induction its1 as [|it its1 IH]; cbn; [done|]. rewrite IH. lia.
Qed.

Lemma items_total_cons it its :
  items_total (it :: its) =
    item_quantity it * priceAtPurchase it + items_total its.
Proof. reflexivity. Qed.

Lemma findById_inl pid ps err :
  findById castObjectId pid ps = inl err →
  err = CastError ∧ ¬ well_formed castObjectId pid.
Proof.
  unfold findById, well_formed. destruct (castObjectId pid); [done|].
  intros [= <-]. split; [done|]. by intros [? ?].
Qed.

Lemma findById_inr pid ps found :
  findById castObjectId pid ps = inr found → well_formed castObjectId pid.
Proof.
  unfold findById, well_formed. by destruct (castObjectId pid).
Qed.

Lemma ids_cast_cons item cart :
  ids_cast castObjectId (item :: cart) ↔
  well_formed castObjectId (productId item) ∧ ids_cast castObjectId cart.
Proof. unfold ids_cast. by rewrite Forall_cons. Qed.

Lemma priced_items_cons ps item cart :
  priced_items castObjectId ps (item :: cart) =
    match findById castObjectId (productId item) ps with
    | inr (Some p) =>
        mkOrderItem (productId item) (quantity item) (price p)
          :: priced_items castObjectId ps cart
    | _ => priced_items castObjectId ps cart
    end.
Proof.
  unfold priced_items; cbn [omap list_omap]. unfold priced at 1.
  by destruct (findById castObjectId (productId item) ps) as [?|[?|]].
Qed.

(** The loop ends with a cast error when some product id of the cart does
    not cast; otherwise it adds to its accumulators the priced items of
    the cart and their amounts. *)
Lemma resolve_priced ps cart t its :
  resolve castObjectId ps cart t its =
    if decide (ids_cast castObjectId cart)
    then inr (t + items_total (priced_items castObjectId ps cart),
              its ++ priced_items castObjectId ps cart)
    else inl CastError.
Proof.
  revert t its. induction cart as [|item cart IH]; intros t its.
  - cbn [resolve]. rewrite decide_True by constructor.
    cbn. by rewrite Z.add_0_r, app_nil_r.
  - cbn [resolve]. rewrite priced_items_cons.
    destruct (findById castObjectId (productId item) ps) as [err|[p|]] eqn:E.
    + apply findById_inl in E as [-> Hwf].
      rewrite decide_False; [done|]. by intros [? _]%ids_cast_cons.
    + apply findById_inr in E. rewrite IH.
      destruct (decide (ids_cast castObjectId cart)) as [Hc|Hc].
      * rewrite decide_True by (by apply ids_cast_cons).
        rewrite <- app_assoc, items_total_cons. cbn. do 2 f_equal. lia.
      * rewrite decide_False; [done|]. by intros [_ ?]%ids_cast_cons.
    + apply findById_inr in E. rewrite IH.
      destruct (decide (ids_cast castObjectId cart)) as [Hc|Hc].
      * by rewrite decide_True by (by apply ids_cast_cons).
      * rewrite decide_False; [done|]. by intros [_ ?]%ids_cast_cons.
Qed.

Lemma priced_items_resolvable ps cart :
  priced_items castObjectId ps (filter (resolvable castObjectId ps) cart)
    = priced_items castObjectId ps cart.
Proof.
  induction cart as [|item cart IH]; [done|].
  rewrite filter_cons.
  destruct (decide (resolvable castObjectId ps item)) as [Hr|Hr].
  - by rewrite !priced_items_cons, IH.
  - rewrite priced_items_cons, IH. unfold resolvable in Hr.
    by destruct (findById castObjectId (productId item) ps) as [?|[?|]].
Qed.

Lemma priced_items_price ps cart :
  Forall (λ it, ∃ p, findById castObjectId (item_productId it) ps = inr (Some p) ∧
                     priceAtPurchase it = price p)
    (priced_items castObjectId ps cart).
Proof.
  induction cart as [|item cart IH]; [constructor|].
  rewrite priced_items_cons.
  destruct (findById castObjectId (productId item) ps) as [?|[p|]] eqn:E; [done| |done].
  constructor; [|done]. by exists p.
Qed.

(** What the route does on a cart that is not empty. *)
Lemma post_checkout_nonempty e user st :
  cartOf (id user) st ≠ [] →
  post_checkout castObjectId e user st =
    if decide (ids_cast castObjectId (cartOf (id user) st)) then
      match prismaWrite e with
      | None => (Rejected PersistenceError, st)
      | Some k =>
          let its := priced_items castObjectId (products st) (cartOf (id user) st) in
          let order := mkOrder k (id user) (items_total its) its in
          (Json 200 (OrderBody order),
           set_carts (<[id user := []]> (carts st))
             (set_orders (orders st ++ [order]) st))
      end
    else (Rejected CastError, st).
Proof.
  intros Hne. unfold post_checkout.
  rewrite decide_False by (by destruct (cartOf (id user) st)).
  rewrite resolve_priced. by case_decide.
Qed.

Lemma post_checkout_empty e user st :
  cartOf (id user) st = [] →
  post_checkout castObjectId e user st = (Json 400 (Message "Empty cart"), st).
Proof. intros Hc. unfold post_checkout. by rewrite Hc. Qed.

(** What a successful checkout answers with. *)
Lemma post_checkout_order e user st order :
  fst (post_checkout castObjectId e user st) = Json 200 (OrderBody order) →
  cartOf (id user) st ≠ [] ∧
  ids_cast castObjectId (cartOf (id user) st) ∧
  ∃ k, prismaWrite e = Some k ∧
    order = mkOrder k (id user)
              (items_total (priced_items castObjectId (products st) (cartOf (id user) st)))
              (priced_items castObjectId (products st) (cartOf (id user) st)).
Proof.
  destruct (decide (cartOf (id user) st = [])) as [Hc|Hc].
  - rewrite post_checkout_empty by done. discriminate.
  - rewrite post_checkout_nonempty by done.
    case_decide as Hids; [|discriminate].
    destruct (prismaWrite e) as [k|]; [|discriminate].
    cbn. intros [= <-]. split_and!; [done..|]. by exists k.
Qed.

(** C1, amended. Checkout either writes the order, answers with it and
    leaves the cart of the user empty (every other cart untouched), or
    writes no order and leaves the whole state as it was: the cart is
    cleared only after the order is written.  The first case is that of a
    cart that is not empty, all of whose product ids cast, with an order
    write that commits.  In the second case the handler is rejected with
    the persistence error when the order write is refused and with the
    cast error when a product id of the cart does not cast, and the
    answer is 400 when the cart is empty. *)
Theorem checkout_writes_order_and_clears_cart_or_changes_nothing e user st :
  let cart := cartOf (id user) st in
  let out := post_checkout castObjectId e user st in
  ((∃ order,
      fst out = Json 200 (OrderBody order) ∧
      orders (snd out) = orders st ++ [order] ∧
      carts (snd out) !! id user = Some [] ∧
      ∀ u, u ≠ id user → carts (snd out) !! u = carts st !! u) ∨
   (snd out = st ∧ status (fst out) ≠ Some 200%nat)) ∧
  (cart ≠ [] → ids_cast castObjectId cart → ∀ k, prismaWrite e = Some k →
     ∃ order,
       fst out = Json 200 (OrderBody order) ∧
       order_id order = k ∧ order_userId order = id user ∧
       orders (snd out) = orders st ++ [order] ∧
       carts (snd out) !! id user = Some []) ∧
  (cart ≠ [] → ids_cast castObjectId cart → prismaWrite e = None →
     out = (Rejected PersistenceError, st)) ∧
  (cart ≠ [] → ¬ ids_cast castObjectId cart →
     out = (Rejected CastError, st)) ∧
  (cart = [] → out = (Json 400 (Message "Empty cart"), st)).
Proof.
  intros cart out. subst cart out.
  destruct (decide (cartOf (id user) st = [])) as [Hc|Hc].
  { rewrite post_checkout_empty by done. cbn.
    split_and!; try done. right. split; [done|discriminate]. }
  rewrite post_checkout_nonempty by done.
  destruct (decide (ids_cast castObjectId (cartOf (id user) st))) as [Hids|Hids];
    [|split_and!; try done; right; split; [done|discriminate]].
  destruct (prismaWrite e) as [k|];
    [|split_and!; try done; right; split; [done|discriminate]].
  cbn. split_and!; try done.
  - left. eexists. split_and!; [reflexivity|done|apply lookup_insert_eq|].
    intros u Hu. by rewrite lookup_insert_ne.
  - intros _ _ k' [= <-]. eexists. split_and!; [reflexivity|done..|].
    apply lookup_insert_eq.
Qed.

(** C2. For every successful checkout, the total of the created order is
    the sum over its items of quantity times price at purchase, each
    item's price at purchase is the price of its product in the catalog
    the checkout read, and the order is the one written to the store. *)
Theorem order_total_is_sum_over_items e user st order :
  fst (post_checkout castObjectId e user st) = Json 200 (OrderBody order) →
  total order = items_total (items order) ∧
  Forall (λ it, ∃ p,
            findById castObjectId (item_productId it) (products st) = inr (Some p) ∧
            priceAtPurchase it = price p) (items order) ∧
  orders (snd (post_checkout castObjectId e user st)) = orders st ++ [order].
Proof.
  intros Hout.
  destruct (post_checkout_order _ _ _ _ Hout) as (Hc & Hids & k & Hk & ->).
  rewrite post_checkout_nonempty by done.
  rewrite decide_True, Hk by done. cbn.
  split_and!; [done|apply priced_items_price|done].
Qed.

(** C4. Checkout of a user whose cart has no entries answers 400 with the
    message of the empty cart, and the state is the one before: the cart
    is still empty and the order store has received nothing. *)
Theorem checkout_of_empty_cart_changes_nothing e user st :
  cartOf (id user) st = [] →
  fst (post_checkout castObjectId e user st) = Json 400 (Message "Empty cart") ∧
  snd (post_checkout castObjectId e user st) = st ∧
  orders (snd (post_checkout castObjectId e user st)) = orders st ∧
  cartOf (id user) (snd (post_checkout castObjectId e user st)) = [].
Proof.
  intros Hc. rewrite post_checkout_empty by done. cbn. done.
Qed.

(** C5, amended. On a cart that is not empty and with an order write
    that commits: when every product id of the cart casts, checkout
    answers with an order, whatever entries fail to resolve: the items
    and the total are those the loop computes on the cart with its
    unresolvable entries taken out, one item per resolvable entry, and
    no item carries the product id of an unresolvable entry; when no
    entry resolves, the order has total 0 and no items.  When some
    product id of the cart does not cast, no entry is skipped: the
    handler is rejected with the cast error and the state is
    unchanged. *)
Theorem unresolvable_entries_are_skipped e user st k :
  cartOf (id user) st ≠ [] →
  prismaWrite e = Some k →
  let cart := cartOf (id user) st in
  let kept := filter (resolvable castObjectId (products st)) cart in
  (ids_cast castObjectId cart →
   ∃ order,
    fst (post_checkout castObjectId e user st) = Json 200 (OrderBody order) ∧
    orders (snd (post_checkout castObjectId e user st)) = orders st ++ [order] ∧
    inr (total order, items order) = resolve castObjectId (products st) kept 0 [] ∧
    length (items order) = length kept ∧
    (∀ item, item ∈ cart → ¬ resolvable castObjectId (products st) item →
       productId item ∉ item_productId <$> items order) ∧
    (Forall (λ item, ¬ resolvable castObjectId (products st) item) cart →
       total order = 0 ∧ items order = [])) ∧
  (¬ ids_cast castObjectId cart →
   post_checkout castObjectId e user st = (Rejected CastError, st)).
Proof.
  intros Hne Hk cart kept. rewrite !post_checkout_nonempty by done.
  split; [|intros Hids; by rewrite decide_False].
  intros Hids.
  rewrite decide_True, Hk by done. eexists. split; [reflexivity|]. cbn.
  fold cart. rewrite <- (priced_items_resolvable (products st) cart). fold kept.
  split_and!.
  - done.
  - rewrite resolve_priced, decide_True; [done|].
    unfold kept, ids_cast. apply Forall_forall.
    intros item [_ Hin]%list_elem_of_filter.
    unfold ids_cast in Hids. rewrite Forall_forall in Hids. by apply Hids.
  - unfold kept. clear. induction cart as [|item cart IH]; [done|].
    rewrite filter_cons.
    destruct (decide (resolvable castObjectId (products st) item)) as [Hr|Hr]; [|done].
    rewrite priced_items_cons. unfold resolvable in Hr.
    destruct (findById castObjectId (productId item) (products st)) as [?|[p|]];
      [done| |done].
    cbn. by rewrite IH.
  - intros item _ Hr Hin.
    apply list_elem_of_fmap in Hin as (it & Hid & Hin).
    pose proof (priced_items_price (products st) kept) as Hall.
    rewrite Forall_forall in Hall. destruct (Hall it Hin) as (p & Hp & _).
    apply Hr. unfold resolvable. by rewrite Hid, Hp.
  - intros Hall. assert (kept = []) as ->; [|done].
    unfold kept. clear -Hall. induction Hall as [|item cart Hr _ IH]; [done|].
    rewrite filter_cons. by rewrite decide_False.
Qed.

End Checkout.

(** Two checkouts with well-formed product ids: the product found, and
    one product of two found. *)
Example checkout_one_item :
  post_checkout Hex24.cast Sample.commits Sample.alice Sample.one_item =
    (Json 200 (OrderBody (mkOrder 7 1 20 [mkOrderItem Sample.id1 2 10])),
     mkState [] [Sample.p1 10] [mkOrder 7 1 20 [mkOrderItem Sample.id1 2 10]]
       {[ 1 := [] ]}).
Proof. by vm_compute. Qed.

Example checkout_one_unknown :
  post_checkout Hex24.cast Sample.commits Sample.alice Sample.one_unknown =
    (Json 200 (OrderBody (mkOrder 7 1 5 [mkOrderItem Sample.id1 1 5])),
     mkState [] [Sample.p1 5] [mkOrder 7 1 5 [mkOrderItem Sample.id1 1 5]]
       {[ 1 := [] ]}).
Proof. by vm_compute. Qed.

(** The case of the digits of an id does not matter to the lookup. *)
Example lookup_ignores_case :
  findById Hex24.cast "64B7F0A21C9D4E0012AB0001" [Sample.p1 10]
    = inr (Some (Sample.p1 10)).
Proof. by vm_compute. Qed.

Lemma checkout_writes_order_and_clears_cart_or_changes_nothing_witness :
  cartOf 1 Sample.one_item ≠ [] ∧
  ids_cast Hex24.cast (cartOf 1 Sample.one_item) ∧
  (∃ order,
     fst (post_checkout Hex24.cast Sample.commits Sample.alice Sample.one_item)
       = Json 200 (OrderBody order) ∧
     carts (snd (post_checkout Hex24.cast Sample.commits Sample.alice Sample.one_item)) !! 1
       = Some []) ∧
  post_checkout Hex24.cast Sample.refuses Sample.alice Sample.one_item
    = (Rejected PersistenceError, Sample.one_item).
Proof.
  assert (H1 : cartOf (id Sample.alice) Sample.one_item ≠ [])
    by (vm_compute; discriminate).
  assert (H2 : ids_cast Hex24.cast (cartOf (id Sample.alice) Sample.one_item))
    by (repeat constructor; by eexists).
  split; [exact H1|]. split; [exact H2|]. split.
  - destruct (checkout_writes_order_and_clears_cart_or_changes_nothing
                Hex24.cast Sample.commits Sample.alice Sample.one_item)
      as (_ & Hok & _).
    destruct (Hok H1 H2 7 eq_refl) as (order & Hout & _ & _ & _ & Hcart).
    exists order. split; [exact Hout|exact Hcart].
  - destruct (checkout_writes_order_and_clears_cart_or_changes_nothing
                Hex24.cast Sample.refuses Sample.alice Sample.one_item)
      as (_ & _ & Hrefused & _).
    exact (Hrefused H1 H2 eq_refl).
Defined.

(** C1 as stated fails: with an order store that commits, checkout of the
    cart [[{p1, 2}]] neither writes an order and empties the cart nor
    fails on the order write: the lookup of [p1] throws a cast error, no
    order exists and the cart is as before. *)
Lemma checkout_can_fail_before_the_order_write :
  let out := post_checkout Hex24.cast Sample.commits Sample.alice Sample.short_id in
  prismaWrite Sample.commits = Some 7 ∧
  fst out = Rejected CastError ∧
  fst out ≠ Rejected PersistenceError ∧
  orders (snd out) = [] ∧
  cartOf 1 (snd out) = [mkCartItem "p1" 2].
Proof. by vm_compute. Qed.

Lemma order_total_is_sum_over_items_witness :
  let order := mkOrder 7 1 20 [mkOrderItem Sample.id1 2 10] in
  fst (post_checkout Hex24.cast Sample.commits Sample.alice Sample.one_item)
    = Json 200 (OrderBody order) ∧
  total order = items_total (items order).
Proof.
  assert (H : fst (post_checkout Hex24.cast Sample.commits Sample.alice Sample.one_item)
              = Json 200 (OrderBody (mkOrder 7 1 20 [mkOrderItem Sample.id1 2 10])))
    by (vm_compute; reflexivity).
  split; [exact H|].
  exact (proj1 (order_total_is_sum_over_items Hex24.cast _ _ _ _ H)).
Defined.

Lemma checkout_of_empty_cart_changes_nothing_witness :
  cartOf 1 Sample.shop = [] ∧
  fst (post_checkout Hex24.cast Sample.commits Sample.alice Sample.shop)
    = Json 400 (Message "Empty cart") ∧
  snd (post_checkout Hex24.cast Sample.commits Sample.alice Sample.shop) = Sample.shop.
Proof.
  assert (H : cartOf (id Sample.alice) Sample.shop = []) by reflexivity.
  split; [exact H|].
  destruct (checkout_of_empty_cart_changes_nothing Hex24.cast Sample.commits _ _ H)
    as (Hout & Hst & _).
  split; [exact Hout|exact Hst].
Defined.

Lemma unresolvable_entries_are_skipped_witness :
  cartOf 1 Sample.all_unknown ≠ [] ∧
  ids_cast Hex24.cast (cartOf 1 Sample.all_unknown) ∧
  prismaWrite Sample.commits = Some 7 ∧
  ∃ order,
    fst (post_checkout Hex24.cast Sample.commits Sample.alice Sample.all_unknown)
      = Json 200 (OrderBody order) ∧
    total order = 0 ∧ items order = [].
Proof.
  assert (H1 : cartOf (id Sample.alice) Sample.all_unknown ≠ [])
    by (vm_compute; discriminate).
  assert (H2 : ids_cast Hex24.cast (cartOf (id Sample.alice) Sample.all_unknown))
    by (repeat constructor; by eexists).
  assert (H3 : prismaWrite Sample.commits = Some 7) by reflexivity.
  split; [exact H1|]. split; [exact H2|]. split; [exact H3|].
  destruct (proj1 (unresolvable_entries_are_skipped Hex24.cast _ _ _ _ H1 H3) H2)
    as (order & Hout & _ & _ & _ & _ & Hnone).
  exists order. split; [exact Hout|].
  apply Hnone. repeat constructor; vm_compute; intros [].
Defined.

(** C5 as stated fails: in the cart [[{id1, 1}, {missing, 3}]] the entry
    [missing] does not resolve, yet checkout does not skip it: the lookup
    throws, the handler is rejected and no order is written. *)
Lemma ill_formed_entry_is_not_skipped :
  let out := post_checkout Hex24.cast Sample.commits Sample.alice Sample.one_missing in
  mkCartItem "missing" 3 ∈ cartOf 1 Sample.one_missing ∧
  ¬ resolvable Hex24.cast (products Sample.one_missing) (mkCartItem "missing" 3) ∧
  out = (Rejected CastError, Sample.one_missing) ∧
  is_error (fst out) ∧
  orders (snd out) = [].
Proof.
  split_and!.
  - vm_compute. right; left.
  - vm_compute. by intros [].
  - by vm_compute.
  - exact I.
  - by vm_compute.
Qed.

(** ** Quantities in the carts *)

Section Quantities.

Variable JWT_SECRET : string.
Variable bcrypt_hash : string → string.
Variable bcrypt_compare : string → string → bool.
Variable mongo_regex_i : string → option (string → bool).
Variable castObjectId : string → option ObjectId.

Local Abbreviation app :=
  (app JWT_SECRET bcrypt_hash bcrypt_compare mongo_regex_i castObjectId).
Local Abbreviation serve :=
  (serve JWT_SECRET bcrypt_hash bcrypt_compare mongo_regex_i castObjectId).

Implicit Types (e : env) (user : Claims) (st : state) (r : request).

(** Where the items of an array come from after an add. *)
Lemma addItem_origin pid q cart item :
  item ∈ addItem pid q cart →
  item ∈ cart ∨ (∃ old, old ∈ cart ∧ item = bump q old) ∨ item = mkCartItem pid q.
Proof.
  induction cart as [|hd cart IH].
  - rewrite addItem_nil, list_elem_of_singleton. auto.
  - rewrite addItem_cons. destruct (decide (productId hd = pid)) as [Heq|Hne].
    + rewrite !elem_of_cons. intros [->|Hin].
      * right; left. exists hd. split; [by left|done].
      * left. by right.
    + rewrite elem_of_cons. intros [->|Hin].
      { left. by left. }
      destruct (IH Hin) as [H|[(old & Hold & ->)| ->]].
      * left. by right.
      * right; left. exists old. split; [by right|done].
      * by right; right.
Qed.

(** A handler that leaves the [carts] object alone keeps the property. *)
Lemma quantities_positive_carts st st' :
  carts st' = carts st → quantities_positive st → quantities_positive st'.
Proof. unfold quantities_positive, cartOf. by intros ->. Qed.

Lemma post_cart_positive pid q user st :
  0 < q → quantities_positive st →
  quantities_positive (snd (post_cart pid q user st)).
Proof.
  intros Hq Hst u item.
  destruct (decide (u = id user)) as [->|Hu].
  - rewrite cartOf_post_cart. intros Hin.
    destruct (addItem_origin _ _ _ _ Hin) as [H|[(old & Hold & ->)| ->]].
    + by apply (Hst (id user)).
    + cbn. pose proof (Hst _ _ Hold). lia.
    + done.
  - rewrite cartOf_post_cart_ne by done. apply Hst.
Qed.

Lemma delete_cart_positive pid user st :
  quantities_positive st → quantities_positive (snd (delete_cart pid user st)).
Proof.
  intros Hst u item.
  destruct (decide (u = id user)) as [->|Hu].
  - rewrite cartOf_delete_cart, removeItem_elem_of. intros [_ Hin].
    by apply (Hst (id user)).
  - rewrite cartOf_delete_cart_ne by done. apply Hst.
Qed.

Lemma post_checkout_positive e user st :
  quantities_positive st →
  quantities_positive (snd (post_checkout castObjectId e user st)).
Proof.
  intros Hst. unfold post_checkout. case_decide; [done|].
  destruct (resolve _ _ _ _ _) as [err|[t its]]; [done|].
  destruct (prismaWrite e) as [k|]; [|done].
  intros u item. unfold cartOf; cbn.
  destruct (decide (u = id user)) as [->|Hu].
  - rewrite lookup_insert_eq. by intros ?%elem_of_nil.
  - rewrite lookup_insert_ne by done. apply Hst.
Qed.

Lemma authenticate_preserves (P : state → Prop) e auth next st :
  P st → (∀ user, P (snd (next user st))) →
  P (snd (authenticate JWT_SECRET e auth next st)).
Proof.
  intros Hst Hnext. unfold authenticate.
  destruct auth as [token|]; [|done].
  by destruct (jwt_verify _ _ _).
Qed.

Lemma admin_only_carts user next st :
  (∀ st0, carts (snd (next st0)) = carts st0) →
  carts (snd (admin_only user next st)) = carts st.
Proof. intros Hnext. unfold admin_only. by case_decide. Qed.

(** One request keeps the quantities positive, unless it adds a quantity
    that is not. *)
Lemma app_positive e r st :
  adds_positive r → quantities_positive st →
  quantities_positive (snd (app e r st)).
Proof.
  intros Hr Hst. destruct r; cbn [app].
  - apply (quantities_positive_carts st); [|done].
    unfold auth_register. by destruct (user_create _ _ _ _ _ _).
  - apply (quantities_positive_carts st); [|done].
    unfold auth_login. destruct (findUnique _ _); [|done].
    by destruct (bcrypt_compare _ _).
  - apply (quantities_positive_carts st); [|done].
    unfold get_products. by destruct (find _ _ _ _).
  - apply authenticate_preserves; [done|]. intros user.
    apply (quantities_positive_carts st); [|done].
    by apply admin_only_carts.
  - apply authenticate_preserves; [done|]. intros user.
    apply (quantities_positive_carts st); [|done].
    apply admin_only_carts. intros st0.
    by destruct (findByIdAndUpdate _ _ _ _) as [err|[pr ps']].
  - apply authenticate_preserves; [done|]. intros user.
    apply (quantities_positive_carts st); [|done].
    apply admin_only_carts. intros st0.
    by destruct (findByIdAndDelete _ _ _) as [err|ps'].
  - by apply authenticate_preserves.
  - apply authenticate_preserves; [done|]. intros user.
    by apply post_cart_positive.
  - apply authenticate_preserves; [done|]. intros user.
    by apply delete_cart_positive.
  - apply authenticate_preserves; [done|]. intros user.
    by apply post_checkout_positive.
Qed.

Lemma serve_positive rs st :
  Forall (λ er, adds_positive er.2) rs → quantities_positive st →
  quantities_positive (serve rs st).
Proof.
  intros Hrs. revert st.
  induction Hrs as [|[e r] rs Hr _ IH]; intros st Hst; [done|].
  cbn. apply IH. by apply app_positive.
Qed.

(** C7, amended. In every state reached from the initial one by requests
    whose adds all carry a positive quantity, every entry of every cart
    has a positive quantity. *)
Theorem quantities_positive_when_adds_are rs :
  Forall (λ er, adds_positive er.2) rs →
  quantities_positive (serve rs init).
Proof.
  intros Hrs. apply serve_positive; [done|].
  intros u item. unfold cartOf, init; cbn. rewrite lookup_empty.
  by intros ?%elem_of_nil.
Qed.

End Quantities.

Lemma quantities_positive_when_adds_are_witness :
  let rs := [(Sample.commits, PostCart (Some (Sample.token_of Sample.alice)) "p1" 2);
             (Sample.commits, PostCart (Some (Sample.token_of Sample.alice)) "p1" 3);
             (Sample.commits, DeleteCart (Some (Sample.token_of Sample.alice)) "p2")] in
  Forall (λ er, adds_positive er.2) rs ∧
  quantities_positive
    (serve Sample.secret Plain.hash Plain.compare Pcre.regex_i Hex24.cast rs init).
Proof.
  intros rs.
  assert (H : Forall (λ er, adds_positive er.2) rs)
    by (repeat constructor).
  split; [exact H|].
  exact (quantities_positive_when_adds_are
           Sample.secret Plain.hash Plain.compare Pcre.regex_i Hex24.cast rs H).
Defined.

(** C7 as stated fails: an authenticated add of quantity -1 to an empty
    cart is answered 200 and leaves an entry of quantity -1. *)
Lemma add_of_negative_quantity_is_stored :
  let add := PostCart (Some (Sample.token_of Sample.alice)) "p1" (-1) in
  fst (app Sample.secret Plain.hash Plain.compare Pcre.regex_i Hex24.cast
         Sample.commits add init)
    = Json 200 (CartBody [mkCartItem "p1" (-1)]) ∧
  ¬ quantities_positive
      (serve Sample.secret Plain.hash Plain.compare Pcre.regex_i Hex24.cast
         [(Sample.commits, add)] init).
Proof.
  split; [by vm_compute|].
  intros H. specialize (H 1 (mkCartItem "p1" (-1))).
  assert (0 < -1); [|lia].
  apply H. vm_compute. left.
Qed.

(** ** The catalog routes *)

Section Catalog.

Variable JWT_SECRET : string.
Variable bcrypt_hash : string → string.
Variable bcrypt_compare : string → string → bool.
Variable mongo_regex_i : string → option (string → bool).
Variable castObjectId : string → option ObjectId.

Local Abbreviation app :=
  (app JWT_SECRET bcrypt_hash bcrypt_compare mongo_regex_i castObjectId).

Implicit Types (e : env) (user : Claims) (st : state) (p : Product)
  (ps : list Product) (pid : string) (oid : ObjectId) (b : ProductPatch).

Lemma findOne_cons oid p ps :
  findOne oid (p :: ps) =
    if decide (_id p = oid) then Some p else findOne oid ps.
Proof.
  unfold findOne; cbn [list_find]. case_decide; [done|].
  by destruct (list_find _ ps) as [[k x]|].
Qed.

Lemma findOneAndUpdate_cons oid b p ps :
  findOneAndUpdate oid b (p :: ps) =
    if decide (_id p = oid) then (Some (merge b p), merge b p :: ps)
    else ((findOneAndUpdate oid b ps).1, p :: (findOneAndUpdate oid b ps).2).
Proof.
  unfold findOneAndUpdate; cbn [list_find]. case_decide; [done|].
  by destruct (list_find _ ps) as [[k x]|].
Qed.

(** The answer of the update and the collection it leaves. *)
Lemma findOneAndUpdate_found oid b ps p :
  findOne oid ps = Some p →
  (findOneAndUpdate oid b ps).1 = Some (merge b p) ∧
  findOne oid (findOneAndUpdate oid b ps).2 = Some (merge b p).
Proof.
  induction ps as [|hd ps IH]; [done|].
  rewrite findOne_cons, findOneAndUpdate_cons.
  destruct (decide (_id hd = oid)) as [Heq|Hne].
  - intros [= ->]. cbn [fst snd]. rewrite findOne_cons.
    by rewrite decide_True.
  - intros Hp. destruct (IH Hp) as [H1 H2]. cbn [fst snd].
    rewrite findOne_cons. by rewrite decide_False.
Qed.

Lemma findOneAndUpdate_missing oid b ps :
  findOne oid ps = None → findOneAndUpdate oid b ps = (None, ps).
Proof.
  unfold findOne, findOneAndUpdate.
  by destruct (list_find _ ps) as [[k x]|].
Qed.

Lemma findOneAndUpdate_others oid b ps oid' :
  oid' ≠ oid →
  findOne oid' (findOneAndUpdate oid b ps).2 = findOne oid' ps.
Proof.
  intros Hne. induction ps as [|hd ps IH]; [done|].
  rewrite findOneAndUpdate_cons.
  destruct (decide (_id hd = oid)) as [Heq|Hhd]; cbn [fst snd].
  - rewrite !findOne_cons. cbn [_id merge].
    rewrite !decide_False by congruence. done.
  - rewrite !findOne_cons, IH. done.
Qed.

(** A lookup by id, by what the id casts to. *)
Lemma findById_cast pid ps :
  findById castObjectId pid ps =
    match castObjectId pid with
    | Some oid => inr (findOne oid ps)
    | None => inl CastError
    end.
Proof. reflexivity. Qed.

(** C8, amended. For an update request whose token verifies to a payload
    with role admin: when the id does not cast, the handler is rejected
    with the cast error and the state is unchanged; when the id casts and
    a product has it, the answer is 200 with that product after the
    supplied fields replaced its own, the collection holds the merged
    product under the id, and lookups of other ObjectIds are untouched;
    when the id casts and no product has it, the answer is 200 with a
    null body and the state is unchanged. *)
Theorem admin_update_merges_or_answers_null e token user pid b st :
  jwt_verify JWT_SECRET token (now e) = Some user →
  claim_role user = "admin" →
  let out := app e (PutProduct (Some token) pid b) st in
  match findById castObjectId pid (products st) with
  | inl _ => out = (Rejected CastError, st)
  | inr (Some p) =>
      ∃ p', fst out = Json 200 (ProductBodyOf (Some p')) ∧
        _id p' = _id p ∧
        sku p' = default (sku p) (patch_sku b) ∧
        name p' = default (name p) (patch_name b) ∧
        price p' = default (price p) (patch_price b) ∧
        category p' = default (category p) (patch_category b) ∧
        updatedAt p' = default (updatedAt p) (patch_updatedAt b) ∧
        findById castObjectId pid (products (snd out)) = inr (Some p') ∧
        ∀ pid', castObjectId pid' ≠ castObjectId pid →
          findById castObjectId pid' (products (snd out))
            = findById castObjectId pid' (products st)
  | inr None =>
      fst out = Json 200 (ProductBodyOf None) ∧ snd out = st
  end.
Proof.
  intros Hv Hadmin out. subst out. cbn [app].
  unfold authenticate. rewrite Hv. unfold put_products, admin_only.
  rewrite decide_False by (by intros []).
  unfold findByIdAndUpdate. rewrite (findById_cast pid (products st)).
  destruct (castObjectId pid) as [oid|] eqn:Hc; [|done].
  destruct (findOne oid (products st)) as [p|] eqn:Hp.
  - destruct (findOneAndUpdate_found oid b _ _ Hp) as [H1 H2].
    pose proof (findOneAndUpdate_others oid b (products st)) as H3.
    destruct (findOneAndUpdate oid b (products st)) as [r ps'].
    cbn [fst snd products set_products] in *. subst r.
    exists (merge b p). split_and!; try done.
    + by rewrite findById_cast, Hc, H2.
    + intros pid' Hne. rewrite !findById_cast.
      destruct (castObjectId pid') as [oid'|]; [|done].
      rewrite H3; [done|]. by intros ->.
  - rewrite findOneAndUpdate_missing by done. cbn.
    split; [done|]. by destruct st.
Qed.

End Catalog.

Lemma admin_update_merges_or_answers_null_witness :
  let token := Sample.token_of Sample.root in
  let b := mkProductPatch None None (Some 3) None None in
  jwt_verify Sample.secret token (now Sample.commits) = Some Sample.root ∧
  claim_role Sample.root = "admin" ∧
  ∃ p', fst (app Sample.secret Plain.hash Plain.compare Pcre.regex_i Hex24.cast
               Sample.commits (PutProduct (Some token) Sample.id2 b) Sample.shop)
          = Json 200 (ProductBodyOf (Some p')) ∧
        name p' = "abc" ∧ price p' = 3.
Proof.
  intros token b.
  assert (H1 : jwt_verify Sample.secret token (now Sample.commits) = Some Sample.root)
    by reflexivity.
  assert (H2 : claim_role Sample.root = "admin") by reflexivity.
  split; [exact H1|]. split; [exact H2|].
  pose proof (admin_update_merges_or_answers_null
                Sample.secret Plain.hash Plain.compare Pcre.regex_i Hex24.cast
                Sample.commits token Sample.root Sample.id2 b Sample.shop H1 H2) as H.
  change (findById Hex24.cast Sample.id2 (products Sample.shop))
    with (@inr storeError _ (Some Sample.p2)) in H.
  destruct H as (p' & Hout & _ & _ & Hname & Hprice & _).
  exists p'. split; [exact Hout|]. split; [exact Hname|exact Hprice].
Defined.

(** C8 as stated fails: an admin update of a well-formed id that no
    product has is answered 200 with a null body, which is no error. *)
Lemma update_of_missing_product_is_no_error :
  let out :=
    fst (app Sample.secret Plain.hash Plain.compare Pcre.regex_i Hex24.cast
           Sample.commits
           (PutProduct (Some (Sample.token_of Sample.root)) Sample.id3
              (mkProductPatch None None (Some 3) None None))
           Sample.shop) in
  findById Hex24.cast Sample.id3 (products Sample.shop) = inr None ∧
  out = Json 200 (ProductBodyOf None) ∧
  ¬ is_error out.
Proof.
  vm_compute. split_and!; [done|done|lia].
Qed.

(** ** The catalog query *)

Section CatalogQuery.

Variable mongo_regex_i : string → option (string → bool).

Implicit Types (st : state) (p : Product) (ps : list Product)
  (search cat : option string).

#[local] Instance price_desc_trans : Transitive price_desc.
Proof. unfold price_desc. intros a b c. lia. Qed.

#[local] Instance price_desc_total : Total price_desc.
Proof. unfold price_desc. intros a b. lia. Qed.

Lemma sort_price_desc_sorted ps : StronglySorted price_desc (sort_price_desc ps).
Proof. apply StronglySorted_merge_sort; apply _. Qed.

Lemma sort_price_desc_elem_of ps p : p ∈ sort_price_desc ps ↔ p ∈ ps.
Proof. unfold sort_price_desc. by rewrite merge_sort_Permutation. Qed.

Lemma truthy_Some search s : truthy search = Some s ↔ search = Some s ∧ s ≠ "".
Proof.
  unfold truthy. destruct search as [x|].
  - case_decide as Hx; split.
    + discriminate.
    + intros [[= ->] Hs]. by destruct Hs.
    + by intros [= ->].
    + by intros [[= ->] _].
  - split; [discriminate|by intros [? _]].
Qed.

Lemma truthy_None search : truthy search = None ↔ search = None ∨ search = Some "".
Proof.
  unfold truthy. destruct search as [x|].
  - case_decide as Hx; split.
    + intros _. right. by rewrite Hx.
    + done.
    + discriminate.
    + intros [?|[= ->]]; [discriminate|by destruct Hx].
  - split; [by left|done].
Qed.

Lemma category_matches_truthy cat p :
  category_matches (truthy cat) p ↔
  ∀ c, cat = Some c → c ≠ "" → category p = c.
Proof.
  destruct (truthy cat) as [c|] eqn:E; cbn.
  - apply truthy_Some in E as [-> Hc]. split; [by intros <- c' [= <-]|auto].
  - apply truthy_None in E as [->| ->]; split; try done.
    by intros _ c [= <-].
Qed.

(** The answer of the route, by what the query object holds. *)
Lemma get_products_answer search cat st :
  let answers (on_name : Product → Prop) :=
    ∃ found,
      get_products mongo_regex_i search cat st
        = (Json 200 (ProductsBody found), st) ∧
      StronglySorted price_desc found ∧
      ∀ p, p ∈ found ↔
        p ∈ products st ∧ on_name p ∧ category_matches (truthy cat) p in
  match truthy search with
  | Some s =>
      match mongo_regex_i s with
      | Some test => answers (λ p, test (name p) = true)
      | None =>
          get_products mongo_regex_i search cat st = (Rejected QueryError, st)
      end
  | None => answers (λ _, True)
  end.
Proof.
  intros answers. unfold answers, get_products, find.
  destruct (truthy search) as [s|].
  - destruct (mongo_regex_i s) as [test|]; [|done].
    eexists. split; [reflexivity|]. split; [apply sort_price_desc_sorted|].
    intros p. rewrite sort_price_desc_elem_of, list_elem_of_filter. cbn. tauto.
  - eexists. split; [reflexivity|]. split; [apply sort_price_desc_sorted|].
    intros p. rewrite sort_price_desc_elem_of, list_elem_of_filter. cbn. tauto.
Qed.

End CatalogQuery.

(** ** Plain search strings under the pattern fragment *)

Section PlainPatterns.

Implicit Types (s p : string) (c : ascii).

Lemma special_dot : special "."%char = true.
Proof. reflexivity. Qed.

Lemma special_backslash : special "\"%char = true.
Proof. reflexivity. Qed.

Lemma parse_plain s :
  plain s = true →
  Pcre.parse s = Some (Pcre.Lit <$> String.list_ascii_of_string s).
Proof.
  induction s as [|c s IH]; [done|].
  cbn [plain Pcre.parse String.list_ascii_of_string].
  intros [Hc Hs]%andb_true_iff. apply negb_true_iff in Hc.
  rewrite decide_False by (intros ->; by rewrite special_dot in Hc).
  rewrite decide_False by (intros ->; by rewrite special_backslash in Hc).
  rewrite Hc, (IH Hs). done.
Qed.

Lemma match_here_literals p s :
  Pcre.match_here (Pcre.Lit <$> String.list_ascii_of_string p) s =
    starts_with (lower_string p) (lower_string s).
Proof.
  revert s. induction p as [|a p IH]; intros s; [done|].
  destruct s as [|b s]; [done|]. cbn. by rewrite IH.
Qed.

Lemma match_anywhere_literals p s :
  Pcre.match_anywhere (Pcre.Lit <$> String.list_ascii_of_string p) s =
    contains_ci p s.
Proof.
  unfold contains_ci. induction s as [|b s IH].
  - cbn [Pcre.match_anywhere contains lower_string].
    by rewrite match_here_literals.
  - cbn [Pcre.match_anywhere contains lower_string].
    by rewrite match_here_literals, IH.
Qed.

(** On a search string without special characters the fragment is the
    case-insensitive substring test. *)
Lemma regex_i_plain s :
  plain s = true →
  ∃ test, Pcre.regex_i s = Some test ∧ ∀ x, test x = contains_ci s x.
Proof.
  intros Hs. unfold Pcre.regex_i. rewrite (parse_plain s Hs). cbn.
  eexists. split; [reflexivity|]. apply match_anywhere_literals.
Qed.

Lemma starts_with_app p s :
  starts_with p s = true ↔ ∃ post, s = p +:+ post.
Proof.
  revert s. induction p as [|a p IH]; intros s; cbn.
  - split; [by exists s|done].
  - destruct s as [|b s].
    + split; [done|by intros [post ?]].
    + rewrite andb_true_iff, bool_decide_eq_true, IH. split.
      * intros [-> [post ->]]. by exists post.
      * intros [post [= -> ->]]. split; [done|by exists post].
Qed.

(** [contains] is the substring relation. *)
Lemma contains_infix p s :
  contains p s = true ↔ ∃ pre post, s = pre +:+ p +:+ post.
Proof.
  induction s as [|b s IH]; cbn [contains].
  - rewrite orb_false_r, starts_with_app. split.
    + intros [post ->]. by exists EmptyString, post.
    + intros [pre [post H]]. destruct pre; [by exists post|done].
  - rewrite orb_true_iff, starts_with_app, IH. split.
    + intros [[post ->]|(pre & post & ->)].
      * by exists EmptyString, post.
      * by exists (String b pre), post.
    + intros ([|a pre] & post & H).
      * left. by exists post.
      * right. cbn in H. injection H as -> ->. by exists pre, post.
Qed.

End PlainPatterns.

(** C9, amended. Let the pattern engine of the store behave as the
    case-insensitive substring test on patterns without special
    characters.  Then a catalog query whose search string (if any) has no
    special character answers with the products such that the name
    contains the search string up to case (when one is supplied) and the
    category equals the given one (when one is supplied and is not the
    empty string), sorted by price in descending order.  A search string
    in general is a pattern: when the engine accepts it, the products
    listed are those whose name it matches, with the same category
    condition and order; when the engine refuses it, the query fails and
    nothing is answered. *)
Theorem catalog_query_filters_and_sorts
    (mongo_regex_i : string → option (string → bool)) search cat st :
  (∀ s, plain s = true →
     ∃ test, mongo_regex_i s = Some test ∧ ∀ x, test x = contains_ci s x) →
  ((∀ s, search = Some s → plain s = true) →
     ∃ found,
       get_products mongo_regex_i search cat st
         = (Json 200 (ProductsBody found), st) ∧
       StronglySorted price_desc found ∧
       ∀ p, p ∈ found ↔
         p ∈ products st ∧
         (∀ s, search = Some s → contains_ci s (name p) = true) ∧
         (∀ c, cat = Some c → c ≠ "" → category p = c)) ∧
  (∀ s test, search = Some s → s ≠ "" → mongo_regex_i s = Some test →
     ∃ found,
       get_products mongo_regex_i search cat st
         = (Json 200 (ProductsBody found), st) ∧
       StronglySorted price_desc found ∧
       ∀ p, p ∈ found ↔
         p ∈ products st ∧ test (name p) = true ∧
         (∀ c, cat = Some c → c ≠ "" → category p = c)) ∧
  (∀ s, search = Some s → s ≠ "" → mongo_regex_i s = None →
     get_products mongo_regex_i search cat st = (Rejected QueryError, st)).
Proof.
  intros Hengine.
  pose proof (get_products_answer mongo_regex_i search cat st) as Hans.
  cbv zeta in Hans. split_and!.
  - intros Hplain. destruct (truthy search) as [s|] eqn:Hs.
    + apply truthy_Some in Hs as [-> Hne].
      destruct (Hengine s (Hplain s eq_refl)) as (test & Htest & Hsub).
      rewrite Htest in Hans. destruct Hans as (found & Hout & Hsorted & Hin).
      exists found. split_and!; [done..|].
      intros p. rewrite Hin, category_matches_truthy, Hsub. split.
      * intros (? & ? & ?). split_and!; [done| |done]. by intros s' [= <-].
      * intros (? & Hn & ?). split_and!; [done| |done]. by apply Hn.
    + destruct Hans as (found & Hout & Hsorted & Hin).
      exists found. split_and!; [done..|].
      intros p. rewrite Hin, category_matches_truthy. split.
      * intros (? & _ & ?). split_and!; [done| |done].
        intros s ->. apply truthy_None in Hs as [?|[= ->]]; [done|].
        by destruct (name p).
      * intros (? & _ & ?). done.
  - intros s test -> Hne Htest.
    rewrite (proj2 (truthy_Some (Some s) s)), Htest in Hans by done.
    destruct Hans as (found & Hout & Hsorted & Hin).
    exists found. split_and!; [done..|].
    intros p. by rewrite Hin, category_matches_truthy.
  - intros s -> Hne Hnone.
    by rewrite (proj2 (truthy_Some (Some s) s)), Hnone in Hans.
Qed.

Lemma catalog_query_filters_and_sorts_witness :
  (∀ s, plain s = true →
     ∃ test, Pcre.regex_i s = Some test ∧ ∀ x, test x = contains_ci s x) ∧
  (∀ s, Some "TEA" = Some s → plain s = true) ∧
  ∃ found,
    get_products Pcre.regex_i (Some "TEA") (Some "kitchen") Sample.shop
      = (Json 200 (ProductsBody found), Sample.shop) ∧
    StronglySorted price_desc found ∧
    (Sample.p1 5 ∈ found ∧ Sample.p2 ∉ found).
Proof.
  assert (H1 : ∀ s, Some "TEA" = Some s → plain s = true)
    by (by intros s [= <-]).
  split; [exact regex_i_plain|]. split; [exact H1|].
  destruct (proj1 (catalog_query_filters_and_sorts Pcre.regex_i
                     (Some "TEA") (Some "kitchen") Sample.shop regex_i_plain) H1)
    as (found & Hout & Hsorted & Hin).
  exists found. split; [exact Hout|]. split; [exact Hsorted|]. split.
  - apply Hin. split; [left|]. split.
    + by intros s [= <-].
    + by intros c [= <-] _.
  - intros (_ & Hn & _)%Hin. specialize (Hn "TEA" eq_refl). discriminate.
Defined.

(** C9 as stated fails: the search string [.] is no substring of the name
    [abc], yet as a pattern it matches it, and the product is listed. *)
Lemma search_string_is_a_pattern :
  ∃ found,
    fst (get_products Pcre.regex_i (Some ".") None Sample.shop)
      = Json 200 (ProductsBody found) ∧
    Sample.p2 ∈ found ∧
    name Sample.p2 = "abc" ∧
    ¬ listed_by_spec (Some ".") None Sample.p2.
Proof.
  eexists. split; [by vm_compute|]. split; [by left|]. split; [done|].
  intros [Hname _]. specialize (Hname "." eq_refl). discriminate.
Qed.

(** ** The auth routes and the admin gate *)

Section Auth.

Variable JWT_SECRET : string.
Variable bcrypt_hash : string → string.
Variable bcrypt_compare : string → string → bool.
Variable mongo_regex_i : string → option (string → bool).
Variable castObjectId : string → option ObjectId.

Local Abbreviation server :=
  (app JWT_SECRET bcrypt_hash bcrypt_compare mongo_regex_i castObjectId).

Implicit Types (e : env) (st : state) (u : User) (us : list User)
  (nm em pw : string) (r : option string).

Lemma findUnique_cons em u us :
  findUnique em (u :: us) =
    if decide (email u = em) then Some u else findUnique em us.
Proof.
  unfold findUnique; cbn [list_find]. case_decide; [done|].
  by destruct (list_find _ us) as [[k x]|].
Qed.

Lemma findUnique_snoc em u us :
  em ∉ email <$> us → email u = em → findUnique em (us ++ [u]) = Some u.
Proof.
  intros Hfresh Hu. induction us as [|hd us IH].
  - rewrite app_nil_l, findUnique_cons. by rewrite decide_True.
  - rewrite fmap_cons, not_elem_of_cons in Hfresh. destruct Hfresh as [Hhd Hus].
    rewrite <- app_comm_cons, findUnique_cons.
    rewrite decide_False by congruence. by apply IH.
Qed.

Lemma findUnique_Some em u us :
  findUnique em us = Some u → u ∈ us ∧ email u = em.
Proof.
  induction us as [|hd us IH]; [done|].
  rewrite findUnique_cons. case_decide as Hhd.
  - intros [= ->]. split; [left|done].
  - intros [Hin Hem]%IH. split; [by right|done].
Qed.

(** What the register route answers and stores. *)
Lemma auth_register_created e nm em pw r st k :
  prismaWrite e = Some k → em ∉ email <$> users st →
  auth_register bcrypt_hash e nm em pw r st =
    let user := mkUser k nm em (bcrypt_hash pw) (role_or_customer r) in
    (Json 200 (UserBody user), set_users (users st ++ [user]) st).
Proof.
  intros Hk Hfresh. unfold auth_register, user_create.
  rewrite Hk. by rewrite decide_False.
Qed.

(** A token of the server that has not expired passes [authenticate]. *)
Lemma authenticate_signed e c iat next st :
  now e < iat + 3600 →
  authenticate JWT_SECRET e (Some (jwt_sign JWT_SECRET c iat)) next st = next c st.
Proof.
  intros Hnow. unfold authenticate, jwt_verify, jwt_sign; cbn.
  by rewrite decide_True.
Qed.

(** C10. The register route answers 200 with the very record it appends
    to the user table, password hash included, whenever the store commits
    the row under a free email, and 400 without storing anything
    otherwise.  The login route answers 200 with a token and the record
    of the user table found under the email, password hash included,
    whenever bcrypt accepts the password against that hash, and 401
    otherwise; it never changes the state. *)
Theorem register_and_login_answer_with_the_stored_record e st :
  (∀ nm em pw r,
     let out :=
       app JWT_SECRET bcrypt_hash bcrypt_compare mongo_regex_i castObjectId
         e (Register nm em pw r) st in
     match prismaWrite e with
     | Some k =>
         if decide (em ∈ email <$> users st)
         then out = (Json 400 (Message "User exists"), st)
         else ∃ u, out = (Json 200 (UserBody u), set_users (users st ++ [u]) st) ∧
                user_id u = k ∧ user_name u = nm ∧ email u = em ∧
                passwordHash u = bcrypt_hash pw
     | None => out = (Json 400 (Message "User exists"), st)
     end) ∧
  (∀ em pw,
     let out :=
       app JWT_SECRET bcrypt_hash bcrypt_compare mongo_regex_i castObjectId
         e (Login em pw) st in
     match findUnique em (users st) with
     | Some u =>
         u ∈ users st ∧ email u = em ∧
         if bcrypt_compare pw (passwordHash u)
         then ∃ token, out = (Json 200 (LoginBody token u), st) ∧
                payload token = mkClaims (user_id u) (role u)
         else out = (Json 401 (Message "Invalid credentials"), st)
     | None => out = (Json 401 (Message "Invalid credentials"), st)
     end).
Proof.
  split.
  - intros nm em pw r out. subst out. cbn [app].
    unfold auth_register, user_create.
    destruct (prismaWrite e) as [k|]; [|done].
    case_decide; [done|]. eexists. by split_and!.
  - intros em pw out. subst out. cbn [app]. unfold auth_login.
    destruct (findUnique em (users st)) as [u|] eqn:Hu; [|done].
    apply findUnique_Some in Hu as [Hin Hem]. split_and!; [done..|].
    destruct (bcrypt_compare pw (passwordHash u)); [|done].
    eexists. by split.
Qed.

(** C6, amended. When the store commits the new row and the email is
    free, registration stores the role string of the body when it is not
    empty, and [customer] when the role is omitted or empty.  In
    particular, registering with role [admin] needs no token, logging in
    with the same credentials answers with a token, and for an hour that
    token passes the gate of the three admin routes: none answers 401 or
    403; the create route answers 200, and so do the update and delete
    routes when the product id casts. *)
Theorem anyone_can_register_as_admin e1 e2 e3 nm em pw k st :
  (∀ p, bcrypt_compare p (bcrypt_hash p) = true) →
  prismaWrite e1 = Some k →
  em ∉ email <$> users st →
  now e3 < now e2 + 3600 →
  (∀ r, ∃ u,
     server e1 (Register nm em pw r) st
       = (Json 200 (UserBody u), set_users (users st ++ [u]) st) ∧
     (r = None ∨ r = Some "" → role u = "customer") ∧
     (∀ s, r = Some s → s ≠ "" → role u = s)) ∧
  ∃ u token,
    fst (server e1 (Register nm em pw (Some "admin")) st) = Json 200 (UserBody u) ∧
    role u = "admin" ∧
    fst (server e2 (Login em pw)
           (snd (server e1 (Register nm em pw (Some "admin")) st)))
      = Json 200 (LoginBody token u) ∧
    ∀ st' b pid patch,
      let post := fst (server e3 (PostProduct (Some token) b) st') in
      let put := fst (server e3 (PutProduct (Some token) pid patch) st') in
      let del := fst (server e3 (DeleteProduct (Some token) pid) st') in
      passes_gate post ∧ passes_gate put ∧ passes_gate del ∧
      status post = Some 200%nat ∧
      (well_formed castObjectId pid →
         status put = Some 200%nat ∧ status del = Some 200%nat).
Proof.
  intros Hbcrypt Hk Hfresh Hnow. split.
  - intros r. cbn [app]. rewrite (auth_register_created _ _ _ _ _ _ _ Hk Hfresh).
    eexists. split; [reflexivity|]. cbn. split.
    + by intros [->|[= ->]].
    + intros s -> Hs. cbn. by rewrite decide_False.
  - cbn [app]. rewrite (auth_register_created _ _ _ _ _ _ _ Hk Hfresh).
    change (role_or_customer (Some "admin")) with "admin".
    cbn [fst snd]. unfold auth_login. cbn [users set_users].
    rewrite (findUnique_snoc em (mkUser k nm em (bcrypt_hash pw) "admin") _ Hfresh eq_refl).
    cbn [passwordHash].
    rewrite Hbcrypt. eexists _, _. split_and!; [reflexivity|done|reflexivity|].
    intros st' b pid patch. cbn [user_id role role_or_customer].
    rewrite !(authenticate_signed _ _ _ _ _ Hnow).
    unfold post_products, put_products, delete_products, admin_only,
      findByIdAndUpdate, findByIdAndDelete, well_formed, passes_gate.
    cbn [claim_role]. rewrite !decide_False by (by intros ?).
    destruct (castObjectId pid) as [oid|].
    + destruct (findOneAndUpdate oid patch (products st')) as [pr ps'].
      cbn. split_and!; try done.
    + cbn. split_and!; try done; by intros [? ?].
Qed.

End Auth.

Lemma plain_compare_hash p : Plain.compare p (Plain.hash p) = true.
Proof. unfold Plain.compare. by apply bool_decide_eq_true. Qed.

Lemma anyone_can_register_as_admin_witness :
  let server := app Sample.secret Plain.hash Plain.compare Pcre.regex_i Hex24.cast in
  (∀ p, Plain.compare p (Plain.hash p) = true) ∧
  prismaWrite Sample.commits = Some 7 ∧
  ("mallory@example.org" ∉ email <$> users init) ∧
  now Sample.commits < now Sample.commits + 3600 ∧
  well_formed Hex24.cast Sample.id1 ∧
  ∃ u token,
    fst (server Sample.commits
           (Register "Mallory" "mallory@example.org" "pw" (Some "admin")) init)
      = Json 200 (UserBody u) ∧
    role u = "admin" ∧
    status (fst (server Sample.commits (DeleteProduct (Some token) Sample.id1) Sample.shop))
      = Some 200%nat.
Proof.
  intros server.
  assert (H2 : prismaWrite Sample.commits = Some 7) by reflexivity.
  assert (H3 : "mallory@example.org" ∉ email <$> users init)
    by apply not_elem_of_nil.
  assert (H4 : now Sample.commits < now Sample.commits + 3600) by (cbn; lia).
  assert (H5 : well_formed Hex24.cast Sample.id1) by (by eexists).
  split; [exact plain_compare_hash|]. split; [exact H2|].
  split; [exact H3|]. split; [exact H4|]. split; [exact H5|].
  destruct (proj2 (anyone_can_register_as_admin
                     Sample.secret Plain.hash Plain.compare Pcre.regex_i Hex24.cast
                     Sample.commits Sample.commits Sample.commits
                     "Mallory" "mallory@example.org" "pw" 7 init
                     plain_compare_hash H2 H3 H4))
    as (u & token & Hreg & Hrole & _ & Hgate).
  exists u, token. split; [exact Hreg|]. split; [exact Hrole|].
  destruct (Hgate Sample.shop (mkProductBody "s" "n" 1 "c") Sample.id1
              (mkProductPatch None None None None None))
    as (_ & _ & _ & _ & Hok).
  exact (proj2 (Hok H5)).
Defined.

(** C6 as stated fails: a body that supplies the empty string as role
    gets a user whose role is [customer], not the string supplied. *)
Lemma empty_role_is_stored_as_customer :
  ∃ u,
    fst (app Sample.secret Plain.hash Plain.compare Pcre.regex_i Hex24.cast
           Sample.commits
           (Register "Eve" "eve@example.org" "pw" (Some "")) init)
      = Json 200 (UserBody u) ∧
    role u = "customer" ∧ role u ≠ "".
Proof.
  eexists. split; [by vm_compute|]. by split.
Qed.

Lemma register_and_login_answer_with_the_stored_record_witness :
  let server := app Sample.secret Plain.hash Plain.compare Pcre.regex_i Hex24.cast in
  let bob := mkUser 7 "Bob" "bob@example.org" (Plain.hash "hunter2") "customer" in
  let st1 := mkState [bob] [] [] ∅ in
  (∃ u,
     server Sample.commits (Register "Bob" "bob@example.org" "hunter2" None) init
       = (Json 200 (UserBody u), set_users (users init ++ [u]) init) ∧
     passwordHash u = Plain.hash "hunter2") ∧
  ∃ token,
    server Sample.commits (Login "bob@example.org" "hunter2") st1
      = (Json 200 (LoginBody token bob), st1) ∧
    passwordHash bob = Plain.hash "hunter2".
Proof.
  intros server bob st1. subst server. split.
  - pose proof (proj1 (register_and_login_answer_with_the_stored_record
                         Sample.secret Plain.hash Plain.compare Pcre.regex_i Hex24.cast
                         Sample.commits init)
                  "Bob" "bob@example.org" "hunter2" None) as H.
    cbv zeta in H. change (prismaWrite Sample.commits) with (Some 7) in H.
    cbv iota beta in H.
    destruct (decide ("bob@example.org" ∈ email <$> users init)) as [Hin|_].
    { exfalso. revert Hin. apply not_elem_of_nil. }
    destruct H as (u & Hout & _ & _ & _ & Hhash).
    exists u. split; [exact Hout|exact Hhash].
  - pose proof (proj2 (register_and_login_answer_with_the_stored_record
                         Sample.secret Plain.hash Plain.compare Pcre.regex_i Hex24.cast
                         Sample.commits st1)
                  "bob@example.org" "hunter2") as H.
    cbv zeta in H.
    change (findUnique "bob@example.org" (users st1)) with (Some bob) in H.
    cbv iota beta in H. destruct H as (_ & _ & H).
    change (Plain.compare "hunter2" (passwordHash bob)) with true in H.
    cbv iota in H. destruct H as (token & Hout & _).
    exists token. split; [exact Hout|reflexivity].
Defined.

(** * Further properties of the routes *)

(** ** Who may do what *)

Section Access.

Variable JWT_SECRET : string.
Variable bcrypt_hash : string → string.
Variable bcrypt_compare : string → string → bool.
Variable mongo_regex_i : string → option (string → bool).
Variable castObjectId : string → option ObjectId.

Local Abbreviation server :=
  (app JWT_SECRET bcrypt_hash bcrypt_compare mongo_regex_i castObjectId).

Implicit Types (e : env) (user : Claims) (st : state) (r : request).

Lemma authenticate_cases e auth next st :
  authenticate JWT_SECRET e auth next st =
    match auth with
    | None => (Json 401 (Message "No token"), st)
    | Some token =>
        match jwt_verify JWT_SECRET token (now e) with
        | Some user => next user st
        | None => (Json 401 (Message "Invalid token"), st)
        end
    end.
Proof. reflexivity. Qed.

(** A protected route run for a payload that has passed [authenticate]. *)
Lemma app_protected e r st auth :
  credentials r = Some auth →
  ∃ next, server e r st = authenticate JWT_SECRET e auth next st ∧
    ∀ user,
      (¬ mutates_products r → products (snd (next user st)) = products st) ∧
      (∀ u, u ≠ id user → cartOf u (snd (next user st)) = cartOf u st) ∧
      users (snd (next user st)) = users st ∧
      (claim_role user ≠ "admin" → mutates_products r →
         next user st = (Json 403 (Message "Admin only"), st)).
Proof.
  destruct r; intros [= <-]; cbn [app]; eexists; (split; [reflexivity|]);
    intros user; cbn [mutates_products].
  - split_and!; [by intros []| | |].
    + intros u _. unfold post_products, admin_only. by case_decide.
    + unfold post_products, admin_only. by case_decide.
    + intros Hrole _. unfold post_products, admin_only. by rewrite decide_True.
  - split_and!; [by intros []| | |].
    + intros u _. unfold put_products, admin_only. case_decide; [done|].
      by destruct (findByIdAndUpdate _ _ _ _) as [err|[pr ps']].
    + unfold put_products, admin_only. case_decide; [done|].
      by destruct (findByIdAndUpdate _ _ _ _) as [err|[pr ps']].
    + intros Hrole _. unfold put_products, admin_only. by rewrite decide_True.
  - split_and!; [by intros []| | |].
    + intros u _. unfold delete_products, admin_only. case_decide; [done|].
      by destruct (findByIdAndDelete _ _ _) as [err|ps'].
    + unfold delete_products, admin_only. case_decide; [done|].
      by destruct (findByIdAndDelete _ _ _) as [err|ps'].
    + intros Hrole _. unfold delete_products, admin_only. by rewrite decide_True.
  - by split_and!.
  - split_and!; [done| |done|done].
    intros u Hu. by apply cartOf_post_cart_ne.
  - split_and!; [done| |done|done].
    intros u Hu. by apply cartOf_delete_cart_ne.
  - unfold post_checkout. case_decide; [by split_and!|].
    destruct (resolve _ _ _ _ _) as [err|[t its]]; [first [done|by split_and!]|].
    destruct (prismaWrite e) as [k|]; [|by split_and!].
    split_and!; [done| |done|done].
    intros u Hu. unfold cartOf; cbn. by rewrite lookup_insert_ne.
Qed.

(** X1. On every route behind [authenticate], a request without a token
    is answered 401 "No token" and a request whose token does not verify
    (wrong secret or expired) is answered 401 "Invalid token"; in both
    cases the state is left as it was. *)
Theorem protected_routes_reject_bad_tokens e r st auth :
  credentials r = Some auth →
  match auth with
  | None => server e r st = (Json 401 (Message "No token"), st)
  | Some token =>
      jwt_verify JWT_SECRET token (now e) = None →
      server e r st = (Json 401 (Message "Invalid token"), st)
  end.
Proof.
  intros Hr. destruct (app_protected e r st auth Hr) as (next & -> & _).
  rewrite authenticate_cases. destruct auth as [token|]; [|done].
  by intros ->.
Qed.

(** X2. A token that verifies to a payload whose role is not [admin] is
    answered 403 "Admin only" by the three routes that write to the
    product collection, and the state is left as it was. *)
Theorem non_admin_is_forbidden_to_write_products e r st token user :
  credentials r = Some (Some token) →
  mutates_products r →
  jwt_verify JWT_SECRET token (now e) = Some user →
  claim_role user ≠ "admin" →
  server e r st = (Json 403 (Message "Admin only"), st).
Proof.
  intros Hr Hmut Hv Hrole.
  destruct (app_protected e r st _ Hr) as (next & -> & Hnext).
  rewrite authenticate_cases, Hv. by apply Hnext.
Qed.

(** X3. The product collection changes only through one of its three
    write routes, called with a token that verifies to a payload of role
    [admin]: any other request leaves it as it was. *)
Theorem products_change_only_by_admin e r st :
  products (snd (server e r st)) ≠ products st →
  mutates_products r ∧
  ∃ token user,
    credentials r = Some (Some token) ∧
    jwt_verify JWT_SECRET token (now e) = Some user ∧
    claim_role user = "admin".
Proof.
  intros Hch. destruct (credentials r) as [auth|] eqn:Hr.
  - destruct (app_protected e r st auth Hr) as (next & Happ & Hnext).
    rewrite Happ, authenticate_cases in Hch.
    destruct auth as [token|]; [|done].
    destruct (jwt_verify JWT_SECRET token (now e)) as [user|] eqn:Hv; [|done].
    destruct (Hnext user) as (Hprod & _ & _ & Hforbid).
    assert (Hmut : mutates_products r).
    { destruct r; cbn; try done; by destruct Hch; apply Hprod; intros []. }
    split; [done|]. exists token, user. split_and!; [done..|].
    destruct (decide (claim_role user = "admin")) as [|Hrole]; [done|].
    by rewrite (Hforbid Hrole Hmut) in Hch.
  - destruct r; try discriminate; cbn [app] in Hch; destruct Hch.
    + unfold auth_register. by destruct (user_create _ _ _ _ _ _).
    + unfold auth_login. destruct (findUnique _ _); [|done].
      by destruct (bcrypt_compare _ _).
    + unfold get_products. by destruct (find _ _ _ _).
Qed.

(** X4. The cart of a user changes only through a request whose token
    verifies to a payload carrying that user's id: requests of other
    users, requests without a valid token and the public routes leave it
    as it was. *)
Theorem cart_changes_only_by_its_owner e r st u :
  cartOf u (snd (server e r st)) ≠ cartOf u st →
  ∃ token user,
    credentials r = Some (Some token) ∧
    jwt_verify JWT_SECRET token (now e) = Some user ∧
    id user = u.
Proof.
  intros Hch. destruct (credentials r) as [auth|] eqn:Hr.
  - destruct (app_protected e r st auth Hr) as (next & Happ & Hnext).
    rewrite Happ, authenticate_cases in Hch.
    destruct auth as [token|]; [|done].
    destruct (jwt_verify JWT_SECRET token (now e)) as [user|] eqn:Hv; [|done].
    exists token, user. split_and!; [done..|].
    destruct (decide (id user = u)) as [|Hu]; [done|].
    destruct Hch. by apply Hnext.
  - destruct r; try discriminate; cbn [app] in Hch; destruct Hch.
    + unfold auth_register. by destruct (user_create _ _ _ _ _ _).
    + unfold auth_login. destruct (findUnique _ _); [|done].
      by destruct (bcrypt_compare _ _).
    + unfold get_products. by destruct (find _ _ _ _).
Qed.

End Access.

Lemma protected_routes_reject_bad_tokens_witness :
  let server := app Sample.secret Plain.hash Plain.compare Pcre.regex_i Hex24.cast in
  let late := mkEnv 5000 (Some 7) (Sample.oid Sample.id9) in
  let stale := Checkout (Some (Sample.token_of Sample.alice)) in
  credentials (Checkout None) = Some None ∧
  server Sample.commits (Checkout None) Sample.one_item
    = (Json 401 (Message "No token"), Sample.one_item) ∧
  credentials stale = Some (Some (Sample.token_of Sample.alice)) ∧
  jwt_verify Sample.secret (Sample.token_of Sample.alice) (now late) = None ∧
  server late stale Sample.one_item
    = (Json 401 (Message "Invalid token"), Sample.one_item).
Proof.
  intros server late stale.
  assert (H1 : credentials (Checkout None) = Some None) by reflexivity.
  assert (H2 : credentials stale = Some (Some (Sample.token_of Sample.alice)))
    by reflexivity.
  assert (H3 : jwt_verify Sample.secret (Sample.token_of Sample.alice) (now late) = None)
    by reflexivity.
  split; [exact H1|]. split.
  - exact (protected_routes_reject_bad_tokens
             Sample.secret Plain.hash Plain.compare Pcre.regex_i Hex24.cast
             Sample.commits _ Sample.one_item _ H1).
  - split; [exact H2|]. split; [exact H3|].
    exact (protected_routes_reject_bad_tokens
             Sample.secret Plain.hash Plain.compare Pcre.regex_i Hex24.cast
             late _ Sample.one_item _ H2 H3).
Defined.

Lemma non_admin_is_forbidden_to_write_products_witness :
  let token := Sample.token_of Sample.alice in
  let r := DeleteProduct (Some token) Sample.id1 in
  credentials r = Some (Some token) ∧
  mutates_products r ∧
  jwt_verify Sample.secret token (now Sample.commits) = Some Sample.alice ∧
  claim_role Sample.alice ≠ "admin" ∧
  app Sample.secret Plain.hash Plain.compare Pcre.regex_i Hex24.cast Sample.commits r Sample.shop
    = (Json 403 (Message "Admin only"), Sample.shop).
Proof.
  intros token r.
  assert (H1 : credentials r = Some (Some token)) by reflexivity.
  assert (H2 : mutates_products r) by exact I.
  assert (H3 : jwt_verify Sample.secret token (now Sample.commits) = Some Sample.alice)
    by reflexivity.
  assert (H4 : claim_role Sample.alice ≠ "admin") by discriminate.
  split; [exact H1|]. split; [exact H2|]. split; [exact H3|]. split; [exact H4|].
  exact (non_admin_is_forbidden_to_write_products
           Sample.secret Plain.hash Plain.compare Pcre.regex_i Hex24.cast
           Sample.commits r Sample.shop token Sample.alice H1 H2 H3 H4).
Defined.

Lemma products_change_only_by_admin_witness :
  let r := DeleteProduct (Some (Sample.token_of Sample.root)) Sample.id1 in
  let server := app Sample.secret Plain.hash Plain.compare Pcre.regex_i Hex24.cast in
  products (snd (server Sample.commits r Sample.shop)) ≠ products Sample.shop ∧
  mutates_products r ∧
  ∃ token user,
    credentials r = Some (Some token) ∧
    jwt_verify Sample.secret token (now Sample.commits) = Some user ∧
    claim_role user = "admin".
Proof.
  intros r server.
  assert (H : products (snd (server Sample.commits r Sample.shop))
              ≠ products Sample.shop) by (vm_compute; discriminate).
  split; [exact H|].
  exact (products_change_only_by_admin
           Sample.secret Plain.hash Plain.compare Pcre.regex_i Hex24.cast
           Sample.commits r Sample.shop H).
Defined.

Lemma cart_changes_only_by_its_owner_witness :
  let r := PostCart (Some (Sample.token_of Sample.alice)) Sample.id2 1 in
  let server := app Sample.secret Plain.hash Plain.compare Pcre.regex_i Hex24.cast in
  cartOf 1 (snd (server Sample.commits r Sample.one_item)) ≠ cartOf 1 Sample.one_item ∧
  ∃ token user,
    credentials r = Some (Some token) ∧
    jwt_verify Sample.secret token (now Sample.commits) = Some user ∧
    id user = 1.
Proof.
  intros r server.
  assert (H : cartOf 1 (snd (server Sample.commits r Sample.one_item))
              ≠ cartOf 1 Sample.one_item) by (vm_compute; discriminate).
  split; [exact H|].
  exact (cart_changes_only_by_its_owner
           Sample.secret Plain.hash Plain.compare Pcre.regex_i Hex24.cast
           Sample.commits r Sample.one_item 1 H).
Defined.

(** ** Sessions and the two relational tables *)

Section Sessions.

Variable JWT_SECRET : string.
Variable bcrypt_hash : string → string.
Variable bcrypt_compare : string → string → bool.
Variable mongo_regex_i : string → option (string → bool).
Variable castObjectId : string → option ObjectId.

Local Abbreviation server :=
  (app JWT_SECRET bcrypt_hash bcrypt_compare mongo_regex_i castObjectId).

Implicit Types (e : env) (user : Claims) (st : state) (r : request).

(** X5. A login that answers 200 leaves the state unchanged, and the
    token it answers with stands for the user found under the email: on
    any later request [authenticate] passes the user's id and role to the
    route as long as less than 3600 seconds have passed since the login,
    and answers 401 "Invalid token" from then on. *)
Theorem login_token_authenticates_for_one_hour e em pw st token u :
  fst (auth_login JWT_SECRET bcrypt_compare e em pw st)
    = Json 200 (LoginBody token u) →
  snd (auth_login JWT_SECRET bcrypt_compare e em pw st) = st ∧
  findUnique em (users st) = Some u ∧
  ∀ e' next st',
    authenticate JWT_SECRET e' (Some token) next st' =
      if decide (now e' < now e + 3600)
      then next (mkClaims (user_id u) (role u)) st'
      else (Json 401 (Message "Invalid token"), st').
Proof.
  unfold auth_login.
  destruct (findUnique em (users st)) as [u'|]; [|discriminate].
  destruct (bcrypt_compare pw (passwordHash u')); [|discriminate].
  cbn. intros [= <- <-]. split_and!; [done..|].
  intros e' next st'. unfold authenticate, jwt_verify, jwt_sign; cbn.
  destruct (decide (now e' < now e + 3600)) as [Hlt|Hge].
  - by rewrite decide_True.
  - rewrite decide_False; [done|]. by intros [_ ?].
Qed.

(** X6. Registration answers 400 "User exists" exactly when the user
    table refuses the new row, be it because the email is taken or
    because the write itself fails; the state is then unchanged.  In
    every other case it answers 200. *)
Theorem register_answers_user_exists_on_any_refusal
    e nm em pw (rl : option string) st :
  let out := auth_register bcrypt_hash e nm em pw rl st in
  (fst out = Json 400 (Message "User exists") ↔
     prismaWrite e = None ∨ em ∈ email <$> users st) ∧
  (fst out = Json 400 (Message "User exists") → snd out = st) ∧
  (fst out = Json 400 (Message "User exists") ∨ status (fst out) = Some 200%nat).
Proof.
  intros out. subst out. unfold auth_register, user_create.
  destruct (prismaWrite e) as [k|].
  - case_decide as Hin; cbn.
    + split_and!; [|done|by left]. split; [by right|done].
    + split_and!; [|done|by right]. split; [done|]. by intros [?|?].
  - cbn. split_and!; [|done|by left]. split; [by left|done].
Qed.

Lemma app_tables_grow e r st :
  users st `prefix_of` users (snd (server e r st)) ∧
  orders st `prefix_of` orders (snd (server e r st)).
Proof.
  destruct r; cbn [app];
    try (apply (authenticate_preserves JWT_SECRET
           (λ s, users st `prefix_of` users s ∧ orders st `prefix_of` orders s));
         [done|intros user]).
  - unfold auth_register. destruct (user_create _ _ _ _ _ _); [|done].
    cbn. split; [by apply prefix_app_r|done].
  - unfold auth_login. destruct (findUnique _ _); [|done].
    by destruct (bcrypt_compare _ _).
  - unfold get_products. by destruct (find _ _ _ _).
  - unfold post_products, admin_only. by case_decide.
  - unfold put_products, admin_only. case_decide; [done|].
    by destruct (findByIdAndUpdate _ _ _ _) as [err|[pr ps']].
  - unfold delete_products, admin_only. case_decide; [done|].
    by destruct (findByIdAndDelete _ _ _) as [err|ps'].
  - done.
  - done.
  - done.
  - unfold post_checkout. case_decide; [done|].
    destruct (resolve _ _ _ _ _) as [err|[t its]]; [first [done|by split_and!]|].
    destruct (prismaWrite e) as [k|]; [|done].
    cbn. split; [done|by apply prefix_app_r].
Qed.

(** X7. The user table and the order table only grow: whatever requests
    are served, the rows present before are still there afterwards,
    unchanged and in the same positions, followed by the new ones.  In
    particular an order keeps the items and prices it was written with
    when products are later updated or deleted. *)
Theorem users_and_orders_only_grow rs st :
  users st `prefix_of`
    users (serve JWT_SECRET bcrypt_hash bcrypt_compare mongo_regex_i castObjectId rs st) ∧
  orders st `prefix_of`
    orders (serve JWT_SECRET bcrypt_hash bcrypt_compare mongo_regex_i castObjectId rs st).
Proof.
  revert st. induction rs as [|[e r] rs IH]; intros st; [done|].
  cbn. destruct (app_tables_grow e r st) as [Hu Ho].
  destruct (IH (snd (server e r st))) as [Hu' Ho'].
  split; etrans; done.
Qed.

End Sessions.

Lemma login_token_authenticates_for_one_hour_witness :
  let bob := mkUser 3 "Bob" "bob@example.org" (Plain.hash "hunter2") "customer" in
  let st := mkState [bob] [] [] ∅ in
  let token := mkToken (mkClaims 3 "customer") 4600 Sample.secret in
  fst (auth_login Sample.secret Plain.compare Sample.commits
         "bob@example.org" "hunter2" st) = Json 200 (LoginBody token bob) ∧
  findUnique "bob@example.org" (users st) = Some bob.
Proof.
  intros bob st token.
  assert (H : fst (auth_login Sample.secret Plain.compare Sample.commits
                     "bob@example.org" "hunter2" st)
              = Json 200 (LoginBody token bob)) by (vm_compute; reflexivity).
  split; [exact H|].
  exact (proj1 (proj2 (login_token_authenticates_for_one_hour
                         Sample.secret Plain.compare Sample.commits
                         _ _ _ _ _ H))).
Defined.

(** ** More on carts *)

Section CartAlgebra.

Implicit Types (user : Claims) (st : state) (pid : string) (q : Z)
  (cart : list CartItem) (item : CartItem).

Lemma removeItem_cons pid item cart :
  removeItem pid (item :: cart) =
    if decide (productId item = pid) then removeItem pid cart
    else item :: removeItem pid cart.
Proof.
  unfold removeItem. rewrite filter_cons.
  destruct (decide (productId item = pid)) as [Heq|Hne].
  - by rewrite decide_False by (by intros ?).
  - by rewrite decide_True.
Qed.

Lemma removeItem_idem pid cart :
  removeItem pid (removeItem pid cart) = removeItem pid cart.
Proof.
  induction cart as [|item cart IH]; [done|].
  rewrite removeItem_cons. case_decide as Hp; [done|].
  rewrite removeItem_cons, decide_False by done. by rewrite IH.
Qed.

Lemma removeItem_absent pid cart :
  pid ∉ productId <$> cart → removeItem pid cart = cart.
Proof.
  induction cart as [|item cart IH]; [done|].
  rewrite fmap_cons, not_elem_of_cons. intros [Hne Hnin].
  rewrite removeItem_cons, decide_False by done. by rewrite IH.
Qed.

Lemma removeItem_addItem pid q cart :
  removeItem pid (addItem pid q cart) = removeItem pid cart.
Proof.
  induction cart as [|item cart IH].
  - rewrite addItem_nil, removeItem_cons. by rewrite decide_True.
  - rewrite addItem_cons. destruct (decide (productId item = pid)) as [Heq|Hne].
    + rewrite !removeItem_cons. cbn [productId bump].
      by rewrite !decide_True.
    + rewrite !removeItem_cons, !decide_False by done. by rewrite IH.
Qed.

Lemma units_cons item cart : units (item :: cart) = quantity item + units cart.
Proof. reflexivity. Qed.

Lemma units_addItem pid q cart : units (addItem pid q cart) = units cart + q.
Proof.
  induction cart as [|item cart IH].
  - rewrite addItem_nil. unfold units; cbn. lia.
  - rewrite addItem_cons. case_decide.
    + rewrite !units_cons. cbn. lia.
    + rewrite !units_cons, IH. lia.
Qed.

(** X8. The array that an add or a remove answers with is the array the
    next [GET /cart] of the same user reads, and reading the cart changes
    nothing. *)
Theorem cart_routes_answer_with_the_stored_cart pid q user st :
  fst (post_cart pid q user st)
    = fst (get_cart user (snd (post_cart pid q user st))) ∧
  fst (delete_cart pid user st)
    = fst (get_cart user (snd (delete_cart pid user st))) ∧
  snd (get_cart user st) = st.
Proof.
  unfold post_cart, delete_cart, get_cart, cartOf; cbn.
  by rewrite !lookup_insert_eq.
Qed.

(** X9. After a remove, the cart of the user holds no entry with the
    product id; removing the same id again changes nothing; and a remove
    for a user who has no cart yet answers with the empty array. *)
Theorem delete_cart_removes_every_entry_once pid user st :
  let st' := snd (delete_cart pid user st) in
  (∀ item, item ∈ cartOf (id user) st' → productId item ≠ pid) ∧
  snd (delete_cart pid user st') = st' ∧
  (carts st !! id user = None →
     fst (delete_cart pid user st) = Json 200 (CartBody [])).
Proof.
  intros st'. split_and!.
  - intros item. unfold st'. rewrite cartOf_delete_cart, removeItem_elem_of.
    by intros [? _].
  - unfold st', delete_cart, set_carts; cbn. rewrite lookup_insert_eq.
    rewrite insert_insert_eq. do 2 f_equal.
    destruct (carts st !! id user); [apply removeItem_idem|done].
  - intros Hnone. unfold delete_cart. by rewrite Hnone.
Qed.

(** X10. An add followed by a remove of the same product id leaves the
    cart as a remove alone would; when the cart had no entry for the id
    the two together restore the cart as it was. *)
Theorem add_then_remove_restores_cart pid q user st :
  let st' := snd (delete_cart pid user (snd (post_cart pid q user st))) in
  cartOf (id user) st' = removeItem pid (cartOf (id user) st) ∧
  ((pid ∉ productId <$> cartOf (id user) st) →
     cartOf (id user) st' = cartOf (id user) st).
Proof.
  intros st'. unfold st'.
  rewrite cartOf_delete_cart, cartOf_post_cart, removeItem_addItem.
  split; [done|]. apply removeItem_absent.
Qed.

(** X11. Within the integers a double holds exactly, an add of quantity
    [q] raises the number of units in the cart of the user by exactly
    [q], whether it bumps an entry or appends one: it is enough that [q],
    the quantities of the cart and the quantity an entry of the product
    reaches are in that range. *)
Theorem post_cart_adds_exactly_q_units pid q user st :
  safe q →
  (∀ item, item ∈ cartOf (id user) st →
     safe (quantity item) ∧ (productId item = pid → safe (quantity item + q))) →
  units (cartOf (id user) (snd (post_cart pid q user st)))
    = units (cartOf (id user) st) + q.
Proof. intros _ _. rewrite cartOf_post_cart. apply units_addItem. Qed.

End CartAlgebra.

Lemma add_then_remove_restores_cart_witness :
  let st' := snd (delete_cart "p2" Sample.alice
                    (snd (post_cart "p2" 4 Sample.alice Sample.one_item))) in
  ("p2" ∉ productId <$> cartOf 1 Sample.one_item) ∧
  cartOf 1 st' = cartOf 1 Sample.one_item.
Proof.
  intros st'.
  assert (H : "p2" ∉ productId <$> cartOf (id Sample.alice) Sample.one_item).
  { vm_compute. intros Hin. apply list_elem_of_singleton in Hin. discriminate. }
  split; [exact H|].
  exact (proj2 (add_then_remove_restores_cart "p2" 4 Sample.alice Sample.one_item) H).
Defined.

Lemma delete_cart_removes_every_entry_once_witness :
  carts Sample.shop !! 1 = None ∧
  fst (delete_cart "p1" Sample.alice Sample.shop) = Json 200 (CartBody []).
Proof.
  assert (H : carts Sample.shop !! id Sample.alice = None) by reflexivity.
  split; [exact H|].
  exact (proj2 (proj2 (delete_cart_removes_every_entry_once
                         "p1" Sample.alice Sample.shop)) H).
Defined.

(** ** Carts and orders across the whole application *)

Section Orders.

Variable JWT_SECRET : string.
Variable bcrypt_hash : string → string.
Variable bcrypt_compare : string → string → bool.
Variable mongo_regex_i : string → option (string → bool).
Variable castObjectId : string → option ObjectId.

Local Abbreviation server :=
  (app JWT_SECRET bcrypt_hash bcrypt_compare mongo_regex_i castObjectId).

Implicit Types (e : env) (user : Claims) (st : state) (r : request)
  (ps : list Product) (cart : list CartItem).

Lemma carts_keyed_carts st st' :
  carts st' = carts st → carts_keyed st → carts_keyed st'.
Proof. unfold carts_keyed, cartOf. by intros ->. Qed.

Lemma app_keyed e r st : carts_keyed st → carts_keyed (snd (server e r st)).
Proof.
  intros Hst. destruct r; cbn [app];
    try (apply authenticate_preserves; [done|intros user]).
  - apply (carts_keyed_carts st); [|done].
    unfold auth_register. by destruct (user_create _ _ _ _ _ _).
  - apply (carts_keyed_carts st); [|done].
    unfold auth_login. destruct (findUnique _ _); [|done].
    by destruct (bcrypt_compare _ _).
  - apply (carts_keyed_carts st); [|done].
    unfold get_products. by destruct (find _ _ _ _).
  - apply (carts_keyed_carts st); [|done]. by apply admin_only_carts.
  - apply (carts_keyed_carts st); [|done]. apply admin_only_carts.
    intros st0. by destruct (findByIdAndUpdate _ _ _ _) as [err|[pr ps']].
  - apply (carts_keyed_carts st); [|done]. apply admin_only_carts.
    intros st0. by destruct (findByIdAndDelete _ _ _) as [err|ps'].
  - done.
  - intros u. destruct (decide (u = id user)) as [->|Hu].
    + rewrite cartOf_post_cart. apply addItem_NoDup, Hst.
    + rewrite cartOf_post_cart_ne by done. apply Hst.
  - intros u. destruct (decide (u = id user)) as [->|Hu].
    + rewrite cartOf_delete_cart. apply removeItem_NoDup, Hst.
    + rewrite cartOf_delete_cart_ne by done. apply Hst.
  - unfold post_checkout. case_decide; [done|].
    destruct (resolve _ _ _ _ _) as [err|[t its]]; [first [done|by split_and!]|].
    destruct (prismaWrite e) as [k|]; [|done].
    intros u. unfold cartOf; cbn.
    destruct (decide (u = id user)) as [->|Hu].
    + rewrite lookup_insert_eq. constructor.
    + rewrite lookup_insert_ne by done. apply Hst.
Qed.

(** X12. In every state the application reaches from its initial state,
    whatever the requests, their order, their users and their tokens, no
    cart holds two entries with the same product id. *)
Theorem carts_stay_keyed_by_product rs :
  carts_keyed (serve JWT_SECRET bcrypt_hash bcrypt_compare mongo_regex_i castObjectId rs init).
Proof.
  assert (Hgen : ∀ st, carts_keyed st →
            carts_keyed (serve JWT_SECRET bcrypt_hash bcrypt_compare
                           mongo_regex_i castObjectId rs st)).
  { induction rs as [|[e r] rs IH]; intros st Hst; [done|].
    cbn. apply IH. by apply app_keyed. }
  apply Hgen. intros u. unfold cartOf, init; cbn. rewrite lookup_empty. constructor.
Qed.

End Orders.

Section CheckoutMore.

Variable castObjectId : string → option ObjectId.

Implicit Types (e : env) (user : Claims) (st : state)
  (ps : list Product) (cart : list CartItem).

Lemma findOne_elem_of oid ps p :
  findOne oid ps = Some p → p ∈ ps ∧ _id p = oid.
Proof.
  induction ps as [|hd ps IH]; [done|].
  rewrite findOne_cons. case_decide as Hhd.
  - intros [= ->]. split; [left|done].
  - intros [Hin Hid]%IH. split; [by right|done].
Qed.

Lemma findById_elem_of pid ps p :
  findById castObjectId pid ps = inr (Some p) → p ∈ ps.
Proof.
  unfold findById. destruct (castObjectId pid) as [oid|]; [|done].
  intros [= Hp]. by apply findOne_elem_of in Hp as [? _].
Qed.

Lemma priced_items_pairs ps cart :
  item_pair <$> priced_items castObjectId ps cart
    = entry_pair <$> filter (resolvable castObjectId ps) cart.
Proof.
  induction cart as [|item cart IH]; [done|].
  rewrite priced_items_cons, filter_cons.
  destruct (decide (resolvable castObjectId ps item)) as [Hr|Hr];
    unfold resolvable in Hr;
    destruct (findById castObjectId (productId item) ps) as [err|[p|]];
    try done.
  by rewrite !fmap_cons, IH.
Qed.

Lemma priced_items_nonneg ps cart :
  Forall (λ p, 0 ≤ price p) ps →
  Forall (λ item, 0 ≤ quantity item) cart →
  0 ≤ items_total (priced_items castObjectId ps cart).
Proof.
  intros Hps Hcart. induction Hcart as [|item cart Hq _ IH]; [done|].
  rewrite priced_items_cons.
  destruct (findById castObjectId (productId item) ps) as [err|[p|]] eqn:Hp;
    [done| |done].
  rewrite items_total_cons. cbn.
  apply findById_elem_of in Hp.
  rewrite Forall_forall in Hps. specialize (Hps p Hp). cbn in Hps. nia.
Qed.

(** X13. Right after a checkout that wrote its order, a second checkout
    of the same user answers 400 "Empty cart" and writes nothing: one
    cart gives one order. *)
Theorem second_checkout_finds_empty_cart e e' user st order :
  fst (post_checkout castObjectId e user st) = Json 200 (OrderBody order) →
  post_checkout castObjectId e' user (snd (post_checkout castObjectId e user st))
    = (Json 400 (Message "Empty cart"), snd (post_checkout castObjectId e user st)).
Proof.
  intros Hout. apply post_checkout_empty.
  destruct (post_checkout_order _ _ _ _ _ Hout) as (Hc & Hids & k & Hk & _).
  rewrite post_checkout_nonempty by done. rewrite decide_True, Hk by done.
  unfold cartOf; cbn. by rewrite lookup_insert_eq.
Qed.

(** X14. When no price in the catalog and no quantity in the cart is
    negative, the total of the order a checkout writes is not
    negative. *)
Theorem order_total_is_not_negative e user st order :
  Forall (λ p, 0 ≤ price p) (products st) →
  Forall (λ item, 0 ≤ quantity item) (cartOf (id user) st) →
  fst (post_checkout castObjectId e user st) = Json 200 (OrderBody order) →
  0 ≤ total order.
Proof.
  intros Hps Hcart Hout.
  destruct (post_checkout_order _ _ _ _ _ Hout) as (_ & _ & k & _ & ->).
  cbn. by apply priced_items_nonneg.
Qed.

(** X15. The items of the order a checkout writes are the resolvable
    entries of the cart, in the order of the cart and each with the
    quantity of its entry. *)
Theorem order_items_mirror_resolvable_entries e user st order :
  fst (post_checkout castObjectId e user st) = Json 200 (OrderBody order) →
  item_pair <$> items order
    = entry_pair <$> filter (resolvable castObjectId (products st))
                       (cartOf (id user) st).
Proof.
  intros Hout.
  destruct (post_checkout_order _ _ _ _ _ Hout) as (_ & _ & k & _ & ->).
  cbn. apply priced_items_pairs.
Qed.

End CheckoutMore.

Lemma second_checkout_finds_empty_cart_witness :
  let order := mkOrder 7 1 5 [mkOrderItem Sample.id1 1 5] in
  let st' := snd (post_checkout Hex24.cast Sample.commits Sample.alice Sample.one_unknown) in
  fst (post_checkout Hex24.cast Sample.commits Sample.alice Sample.one_unknown)
    = Json 200 (OrderBody order) ∧
  post_checkout Hex24.cast Sample.commits Sample.alice st'
    = (Json 400 (Message "Empty cart"), st').
Proof.
  intros order st'.
  assert (H : fst (post_checkout Hex24.cast Sample.commits Sample.alice Sample.one_unknown)
              = Json 200 (OrderBody order)) by (vm_compute; reflexivity).
  split; [exact H|].
  exact (second_checkout_finds_empty_cart Hex24.cast _ Sample.commits _ _ _ H).
Defined.

Lemma order_total_is_not_negative_witness :
  let order := mkOrder 7 1 5 [mkOrderItem Sample.id1 1 5] in
  Forall (λ p, 0 ≤ price p) (products Sample.one_unknown) ∧
  Forall (λ item, 0 ≤ quantity item) (cartOf 1 Sample.one_unknown) ∧
  fst (post_checkout Hex24.cast Sample.commits Sample.alice Sample.one_unknown)
    = Json 200 (OrderBody order) ∧
  0 ≤ total order.
Proof.
  intros order.
  assert (H1 : Forall (λ p, 0 ≤ price p) (products Sample.one_unknown))
    by (repeat constructor; cbn; lia).
  assert (H2 : Forall (λ item, 0 ≤ quantity item)
                 (cartOf (id Sample.alice) Sample.one_unknown))
    by (vm_compute; repeat constructor; discriminate).
  assert (H3 : fst (post_checkout Hex24.cast Sample.commits Sample.alice Sample.one_unknown)
               = Json 200 (OrderBody order)) by (vm_compute; reflexivity).
  split; [exact H1|]. split; [exact H2|]. split; [exact H3|].
  exact (order_total_is_not_negative Hex24.cast _ _ _ _ H1 H2 H3).
Defined.

Lemma order_items_mirror_resolvable_entries_witness :
  let order := mkOrder 7 1 5 [mkOrderItem Sample.id1 1 5] in
  fst (post_checkout Hex24.cast Sample.commits Sample.alice Sample.one_unknown)
    = Json 200 (OrderBody order) ∧
  item_pair <$> items order
    = entry_pair <$> filter (resolvable Hex24.cast (products Sample.one_unknown))
                       (cartOf 1 Sample.one_unknown).
Proof.
  intros order.
  assert (H : fst (post_checkout Hex24.cast Sample.commits Sample.alice Sample.one_unknown)
              = Json 200 (OrderBody order)) by (vm_compute; reflexivity).
  split; [exact H|].
  exact (order_items_mirror_resolvable_entries Hex24.cast _ _ _ _ H).
Defined.

(** ** More on the product collection *)

Section Collection.

Variable mongo_regex_i : string → option (string → bool).
Variable castObjectId : string → option ObjectId.

Implicit Types (e : env) (user : Claims) (st : state) (p : Product)
  (ps : list Product) (pid : string) (oid : ObjectId) (b : ProductPatch).

Lemma findOneAndDelete_cons oid p ps :
  findOneAndDelete oid (p :: ps) =
    if decide (_id p = oid) then ps else p :: findOneAndDelete oid ps.
Proof.
  unfold findOneAndDelete; cbn [list_find]. case_decide; [done|].
  by destruct (list_find _ ps) as [[k x]|].
Qed.

Lemma findOne_None oid ps : findOne oid ps = None ↔ oid ∉ _id <$> ps.
Proof.
  induction ps as [|hd ps IH]; [split; [intros _; apply not_elem_of_nil|done]|].
  rewrite findOne_cons, fmap_cons, not_elem_of_cons.
  case_decide as Hhd.
  - split; [done|]. by intros [? _].
  - rewrite IH. split; [|by intros [_ ?]]. intros Hnin. split; [congruence|done].
Qed.

Lemma findOneAndDelete_missing oid ps :
  findOne oid ps = None → findOneAndDelete oid ps = ps.
Proof.
  unfold findOne, findOneAndDelete.
  by destruct (list_find _ ps) as [[k x]|].
Qed.

Lemma findOneAndDelete_others oid ps oid' :
  oid' ≠ oid → findOne oid' (findOneAndDelete oid ps) = findOne oid' ps.
Proof.
  intros Hne. induction ps as [|hd ps IH]; [done|].
  rewrite findOneAndDelete_cons. case_decide as Hhd.
  - rewrite findOne_cons. by rewrite decide_False by congruence.
  - by rewrite !findOne_cons, IH.
Qed.

Lemma findOneAndDelete_gone oid ps :
  NoDup (_id <$> ps) → findOne oid (findOneAndDelete oid ps) = None.
Proof.
  induction ps as [|hd ps IH]; [done|].
  rewrite fmap_cons, NoDup_cons. intros [Hhd Hnd].
  rewrite findOneAndDelete_cons. case_decide as Heq.
  - apply findOne_None. by rewrite <- Heq.
  - rewrite findOne_cons, decide_False by done. by apply IH.
Qed.

Lemma findOneAndUpdate_ids oid b ps :
  _id <$> (findOneAndUpdate oid b ps).2 = _id <$> ps.
Proof.
  induction ps as [|hd ps IH]; [done|].
  rewrite findOneAndUpdate_cons. case_decide; cbn [snd]; [done|].
  by rewrite !fmap_cons, IH.
Qed.

Lemma findOne_snoc oid ps p :
  findOne oid (ps ++ [p]) =
    match findOne oid ps with
    | Some found => Some found
    | None => if decide (_id p = oid) then Some p else None
    end.
Proof.
  induction ps as [|hd ps IH].
  - rewrite app_nil_l, findOne_cons. cbn.
    by destruct (decide (_id p = oid)).
  - rewrite <- app_comm_cons, !findOne_cons.
    by destruct (decide (_id hd = oid)).
Qed.

(** X16. For a payload of role [admin], deleting a product whose id does
    not cast rejects the handler with the cast error and changes
    nothing.  When the id casts the answer is 200 "Deleted": if no
    product has the id the state is unchanged; lookups of other
    ObjectIds are untouched; and when ids are not repeated in the
    collection, no product has the id afterwards. *)
Theorem admin_delete_removes_the_product pid user st :
  claim_role user = "admin" →
  let out := delete_products castObjectId pid user st in
  match findById castObjectId pid (products st) with
  | inl _ => out = (Rejected CastError, st)
  | inr found =>
      fst out = Json 200 (Message "Deleted") ∧
      (found = None → snd out = st) ∧
      (∀ pid', castObjectId pid' ≠ castObjectId pid →
         findById castObjectId pid' (products (snd out))
           = findById castObjectId pid' (products st)) ∧
      (NoDup (_id <$> products st) →
         findById castObjectId pid (products (snd out)) = inr None)
  end.
Proof.
  intros Hrole out. subst out. unfold delete_products, admin_only.
  rewrite decide_False by (by intros []).
  unfold findByIdAndDelete. rewrite (findById_cast _ pid (products st)).
  destruct (castObjectId pid) as [oid|] eqn:Hc; [|done].
  cbn [fst snd products set_products]. split_and!.
  - done.
  - intros Hnone. rewrite findOneAndDelete_missing by done. by destruct st.
  - intros pid' Hne. rewrite !findById_cast.
    destruct (castObjectId pid') as [oid'|]; [|done].
    rewrite findOneAndDelete_others; [done|]. by intros ->.
  - intros Hnd. rewrite findById_cast, Hc. f_equal.
    by apply findOneAndDelete_gone.
Qed.

(** X17. For a payload of role [admin], creating a product answers 200
    with a product made of the fields of the body under the id the store
    assigns; when that id is new to the collection the product is found
    under it afterwards, by every spelling that casts to it, and every
    product found before is still found under its id. *)
Theorem admin_create_makes_the_product_findable e body user st :
  claim_role user = "admin" →
  findOne (mongoOid e) (products st) = None →
  let out := post_products e body user st in
  let p := mkProduct (mongoOid e) (body_sku body) (body_name body)
             (body_price body) (body_category body) (now e) in
  fst out = Json 200 (ProductBodyOf (Some p)) ∧
  findOne (mongoOid e) (products (snd out)) = Some p ∧
  (∀ pid, castObjectId pid = Some (mongoOid e) →
     findById castObjectId pid (products (snd out)) = inr (Some p)) ∧
  ∀ pid found, findById castObjectId pid (products st) = inr (Some found) →
    findById castObjectId pid (products (snd out)) = inr (Some found).
Proof.
  intros Hrole Hfresh out p. subst out. unfold post_products, admin_only.
  rewrite decide_False by (by intros []).
  cbn [fst snd products set_products]. fold p.
  assert (Hnew : findOne (mongoOid e) (products st ++ [p]) = Some p).
  { rewrite findOne_snoc, Hfresh. by rewrite decide_True. }
  split_and!.
  - done.
  - done.
  - intros pid Hc. by rewrite findById_cast, Hc, Hnew.
  - intros pid found. rewrite !findById_cast.
    destruct (castObjectId pid) as [oid|]; [|done].
    intros [= Hfound]. by rewrite findOne_snoc, Hfound.
Qed.

(** X18. An update never adds, removes, reorders or renames products:
    whatever the id, the patch and the caller, the sequence of ids of the
    collection is the same after [PUT /products/:id] as before. *)
Theorem update_keeps_the_ids_of_the_collection pid b user st :
  _id <$> products (snd (put_products castObjectId pid b user st))
    = _id <$> products st.
Proof.
  unfold put_products, admin_only, findByIdAndUpdate. case_decide; [done|].
  destruct (castObjectId pid) as [oid|]; [|done].
  pose proof (findOneAndUpdate_ids oid b (products st)) as Hids.
  by destruct (findOneAndUpdate oid b (products st)).
Qed.



End Collection.

Lemma admin_delete_removes_the_product_witness :
  claim_role Sample.root = "admin" ∧
  NoDup (_id <$> products Sample.shop) ∧
  delete_products Hex24.cast "p1" Sample.root Sample.shop
    = (Rejected CastError, Sample.shop) ∧
  fst (delete_products Hex24.cast Sample.id1 Sample.root Sample.shop)
    = Json 200 (Message "Deleted") ∧
  findById Hex24.cast Sample.id1
    (products (snd (delete_products Hex24.cast Sample.id1 Sample.root Sample.shop)))
    = inr None.
Proof.
  assert (H1 : claim_role Sample.root = "admin") by reflexivity.
  assert (H2 : NoDup (_id <$> products Sample.shop)).
  { cbn. repeat constructor.
    - intros Hin. apply list_elem_of_singleton in Hin. revert Hin. by vm_compute.
    - apply not_elem_of_nil. }
  split; [exact H1|]. split; [exact H2|]. split.
  - exact (admin_delete_removes_the_product Hex24.cast "p1" Sample.root Sample.shop H1).
  - pose proof (admin_delete_removes_the_product
                  Hex24.cast Sample.id1 Sample.root Sample.shop H1) as H.
    change (findById Hex24.cast Sample.id1 (products Sample.shop))
      with (@inr storeError _ (Some (Sample.p1 5))) in H.
    destruct H as (Hout & _ & _ & Hgone).
    split; [exact Hout|exact (Hgone H2)].
Defined.

Lemma admin_create_makes_the_product_findable_witness :
  let body := mkProductBody "SKU-9" "Kettle" 30 "kitchen" in
  let p := mkProduct (Sample.oid Sample.id9) "SKU-9" "Kettle" 30 "kitchen" 1000 in
  claim_role Sample.root = "admin" ∧
  findOne (mongoOid Sample.commits) (products Sample.shop) = None ∧
  fst (post_products Sample.commits body Sample.root Sample.shop)
    = Json 200 (ProductBodyOf (Some p)) ∧
  findById Hex24.cast Sample.id9
    (products (snd (post_products Sample.commits body Sample.root Sample.shop)))
    = inr (Some p).
Proof.
  intros body p.
  assert (H1 : claim_role Sample.root = "admin") by reflexivity.
  assert (H2 : findOne (mongoOid Sample.commits) (products Sample.shop) = None)
    by (by vm_compute).
  split; [exact H1|]. split; [exact H2|].
  destruct (admin_create_makes_the_product_findable Hex24.cast
              Sample.commits body Sample.root Sample.shop H1 H2)
    as (Hout & _ & Hfound & _).
  split; [exact Hout|]. apply Hfound. by vm_compute.
Defined.


(** ** Registration followed by login, and repeated adds *)

Section Accounts.

Variable JWT_SECRET : string.
Variable bcrypt_hash : string → string.
Variable bcrypt_compare : string → string → bool.

Implicit Types (e : env) (st : state) (nm em pw : string) (rl : option string).

(** X20. When bcrypt accepts a password against its own hash, a user who
    has just registered can log in with the same email and password: the
    answer is 200 with the stored record and a token carrying the key and
    the role the registration stored.  A password that bcrypt rejects
    against the stored hash is answered 401 "Invalid credentials".  Both
    leave the state unchanged. *)
Theorem registered_user_can_log_in e1 e2 nm em pw rl k st :
  (∀ p, bcrypt_compare p (bcrypt_hash p) = true) →
  prismaWrite e1 = Some k →
  em ∉ email <$> users st →
  let st1 := snd (auth_register bcrypt_hash e1 nm em pw rl st) in
  let u := mkUser k nm em (bcrypt_hash pw) (role_or_customer rl) in
  auth_login JWT_SECRET bcrypt_compare e2 em pw st1
    = (Json 200 (LoginBody
                   (jwt_sign JWT_SECRET (mkClaims k (role_or_customer rl)) (now e2))
                   u), st1) ∧
  ∀ pw', bcrypt_compare pw' (bcrypt_hash pw) = false →
    auth_login JWT_SECRET bcrypt_compare e2 em pw' st1
      = (Json 401 (Message "Invalid credentials"), st1).
Proof.
  intros Hbcrypt Hk Hfresh st1 u. subst st1.
  rewrite (auth_register_created _ _ _ _ _ _ _ _ Hk Hfresh).
  cbv zeta. fold u. cbn [snd]. unfold auth_login. cbn [users set_users].
  rewrite (findUnique_snoc em u _ Hfresh eq_refl). cbn [passwordHash u].
  split.
  - by rewrite Hbcrypt.
  - intros pw' Hpw'. by rewrite Hpw'.
Qed.

(** X21. An email registers once: after a registration that answered
    200, any further registration under the same email, whatever its
    other fields, is answered 400 "User exists" and changes nothing. *)
Theorem email_registers_once e1 e2 nm em pw rl nm' pw' rl' st :
  status (fst (auth_register bcrypt_hash e1 nm em pw rl st)) = Some 200%nat →
  let st1 := snd (auth_register bcrypt_hash e1 nm em pw rl st) in
  auth_register bcrypt_hash e2 nm' em pw' rl' st1
    = (Json 400 (Message "User exists"), st1).
Proof.
  unfold auth_register at 1 2, user_create.
  destruct (prismaWrite e1) as [k|]; [|discriminate].
  case_decide as Hin; [discriminate|]. intros _. cbn.
  unfold auth_register, user_create. cbn [users set_users].
  destruct (prismaWrite e2) as [k2|]; [|done].
  rewrite decide_True; [done|].
  rewrite fmap_app, elem_of_app. right. cbn. left.
Qed.

End Accounts.

Section RepeatedAdds.

Implicit Types (user : Claims) (st : state) (pid : string) (q : Z)
  (cart : list CartItem).

Lemma addItem_twice pid q1 q2 cart :
  addItem pid q2 (addItem pid q1 cart) = addItem pid (q1 + q2) cart.
Proof.
  induction cart as [|item cart IH].
  - rewrite !addItem_nil, addItem_cons. cbn. by rewrite decide_True.
  - rewrite (addItem_cons _ q1), (addItem_cons _ (q1 + q2)).
    destruct (decide (productId item = pid)) as [Heq|Hne].
    + rewrite addItem_cons. cbn [productId bump].
      rewrite decide_True by done. unfold bump; cbn. do 2 f_equal. lia.
    + rewrite addItem_cons, decide_False by done. by rewrite IH.
Qed.

Lemma post_cart_state pid q user st :
  snd (post_cart pid q user st) =
    set_carts (<[id user := addItem pid q (cartOf (id user) st)]> (carts st)) st.
Proof.
  unfold post_cart, cartOf, ensure_cart; cbn [snd].
  destruct (carts st !! id user) as [c|] eqn:Hc.
  - by rewrite Hc.
  - by rewrite lookup_insert_eq, insert_insert_eq.
Qed.

(** X22. Within the integers a double holds exactly, two adds of the
    same product by the same user, one after the other, leave the state
    one add of the summed quantity would leave: a single entry carries
    both.  It is enough that the two quantities, their sum, and the
    quantity of an entry of the product before, between and after the two
    adds are in that range. *)
Theorem two_adds_are_one_add_of_the_sum pid q1 q2 user st :
  safe q1 → safe q2 → safe (q1 + q2) →
  (∀ item, item ∈ cartOf (id user) st → productId item = pid →
     safe (quantity item) ∧ safe (quantity item + q1) ∧
     safe (quantity item + q1 + q2)) →
  snd (post_cart pid q2 user (snd (post_cart pid q1 user st)))
    = snd (post_cart pid (q1 + q2) user st).
Proof.
  intros _ _ _ _.
  rewrite (post_cart_state pid q2), (cartOf_post_cart pid q1), addItem_twice.
  rewrite !post_cart_state. unfold set_carts; cbn.
  by rewrite insert_insert_eq.
Qed.

End RepeatedAdds.

Lemma registered_user_can_log_in_witness :
  let st1 := snd (auth_register Plain.hash Sample.commits
                    "Bob" "bob@example.org" "hunter2" None init) in
  let bob := mkUser 7 "Bob" "bob@example.org" (Plain.hash "hunter2") "customer" in
  (∀ p, Plain.compare p (Plain.hash p) = true) ∧
  prismaWrite Sample.commits = Some 7 ∧
  ("bob@example.org" ∉ email <$> users init) ∧
  auth_login Sample.secret Plain.compare Sample.commits "bob@example.org" "hunter2" st1
    = (Json 200 (LoginBody (mkToken (mkClaims 7 "customer") 4600 Sample.secret) bob),
       st1).
Proof.
  intros st1 bob.
  assert (H2 : prismaWrite Sample.commits = Some 7) by reflexivity.
  assert (H3 : "bob@example.org" ∉ email <$> users init) by apply not_elem_of_nil.
  split; [exact plain_compare_hash|]. split; [exact H2|]. split; [exact H3|].
  exact (proj1 (registered_user_can_log_in
                  Sample.secret Plain.hash Plain.compare
                  Sample.commits Sample.commits
                  "Bob" "bob@example.org" "hunter2" None 7 init
                  plain_compare_hash H2 H3)).
Defined.

Lemma email_registers_once_witness :
  let st1 := snd (auth_register Plain.hash Sample.commits
                    "Bob" "bob@example.org" "hunter2" None init) in
  status (fst (auth_register Plain.hash Sample.commits
                 "Bob" "bob@example.org" "hunter2" None init)) = Some 200%nat ∧
  auth_register Plain.hash Sample.commits
    "Robert" "bob@example.org" "other" (Some "admin") st1
    = (Json 400 (Message "User exists"), st1).
Proof.
  intros st1.
  assert (H : status (fst (auth_register Plain.hash Sample.commits
                             "Bob" "bob@example.org" "hunter2" None init))
              = Some 200%nat) by reflexivity.
  split; [exact H|].
  exact (email_registers_once Plain.hash Sample.commits Sample.commits
           "Bob" "bob@example.org" "hunter2" None "Robert" "other" (Some "admin")
           init H).
Defined.

Lemma post_cart_adds_exactly_q_units_witness :
  safe 3 ∧
  (∀ item, item ∈ cartOf 1 Sample.one_item →
     safe (quantity item) ∧ (productId item = Sample.id1 → safe (quantity item + 3))) ∧
  units (cartOf 1 (snd (post_cart Sample.id1 3 Sample.alice Sample.one_item))) = 5.
Proof.
  assert (H1 : safe 3) by (unfold safe; lia).
  assert (H2 : ∀ item, item ∈ cartOf (id Sample.alice) Sample.one_item →
            safe (quantity item) ∧
            (productId item = Sample.id1 → safe (quantity item + 3))).
  { intros item Hin. apply list_elem_of_singleton in Hin. subst item.
    unfold safe; cbn. lia. }
  split; [exact H1|]. split; [exact H2|].
  exact (post_cart_adds_exactly_q_units Sample.id1 3 Sample.alice Sample.one_item H1 H2).
Defined.

Lemma two_adds_are_one_add_of_the_sum_witness :
  safe 3 ∧ safe 4 ∧ safe (3 + 4) ∧
  (∀ item, item ∈ cartOf 1 Sample.one_item → productId item = Sample.id1 →
     safe (quantity item) ∧ safe (quantity item + 3) ∧
     safe (quantity item + 3 + 4)) ∧
  cartOf 1 (snd (post_cart Sample.id1 4 Sample.alice
                   (snd (post_cart Sample.id1 3 Sample.alice Sample.one_item))))
    = cartOf 1 (snd (post_cart Sample.id1 (3 + 4) Sample.alice Sample.one_item)).
Proof.
  assert (H1 : safe 3) by (unfold safe; lia).
  assert (H2 : safe 4) by (unfold safe; lia).
  assert (H3 : safe (3 + 4)) by (unfold safe; lia).
  assert (H4 : ∀ item, item ∈ cartOf (id Sample.alice) Sample.one_item →
            productId item = Sample.id1 →
            safe (quantity item) ∧ safe (quantity item + 3) ∧
            safe (quantity item + 3 + 4)).
  { intros item Hin _. apply list_elem_of_singleton in Hin. subst item.
    unfold safe; cbn. lia. }
  split; [exact H1|]. split; [exact H2|]. split; [exact H3|]. split; [exact H4|].
  exact (f_equal (cartOf 1)
           (two_adds_are_one_add_of_the_sum Sample.id1 3 4 Sample.alice
              Sample.one_item H1 H2 H3 H4)).
Defined.
